(** * dashboard-data-hoarder: settings loader and sealed-box key loading

    A shallow embedding of [config.py] and [crypto_utils_sodium.py].

    Python [str] values are embedded as [string], read as sequences of code
    points below 256 (one [ascii] per code point); on that range the
    definitions of [isspace] and [lower] below agree with CPython's
    [str.isspace] and [str.lower].  Python [bytes] are [list byte].
    Exceptions are values of [exn]; a computation that may raise returns a
    [result].  Module globals, the objects they refer to and the outside
    world (the environment, the pools that were opened) live in an explicit
    process state [Proc]. *)

From Stdlib Require Import ZArith Ascii String Strings.Byte.
From stdpp Require Import base option list gmap strings.

Local Open Scope string_scope.

(** ** Python strings *)

Module Str.

(** [str.isspace] on one code point below 256: TAB..CR, FS..US, SPACE,
    NEL (0x85) and NBSP (0xA0). *)
Definition isspace (c : ascii) : bool :=
  let n := nat_of_ascii c in
  ((9 <=? n)%nat && (n <=? 13)%nat) || ((28 <=? n)%nat && (n <=? 32)%nat)
  || (n =? 133)%nat || (n =? 160)%nat.

(** [str.lower] on one code point below 256: A..Z and the Latin-1 capitals
    0xC0..0xDE, the multiplication sign 0xD7 apart. *)
Definition lower_char (c : ascii) : ascii :=
  let n := nat_of_ascii c in
  if ((65 <=? n)%nat && (n <=? 90)%nat)
     || ((192 <=? n)%nat && (n <=? 222)%nat && negb (n =? 215)%nat)
  then ascii_of_nat (n + 32) else c.

Fixpoint lower (s : string) : string :=
  match s with
  | EmptyString => EmptyString
  | String c r => String (lower_char c) (lower r)
  end.

Fixpoint lstrip (s : string) : string :=
  match s with
  | EmptyString => EmptyString
  | String c r => if isspace c then lstrip r else s
  end.

Fixpoint rstrip (s : string) : string :=
  match s with
  | EmptyString => EmptyString
  | String c r =>
      match rstrip r with
      | EmptyString => if isspace c then EmptyString else String c EmptyString
      | r' => String c r'
      end
  end.

(** [s.strip()]: the slice between the first and the last code point that
    is not whitespace. *)
Definition strip (s : string) : string := rstrip (lstrip s).

(** [s.split(sep)] for a separator of one code point: one piece more than
    there are separators; the empty string gives one empty piece. *)
Fixpoint split (sep : ascii) (s : string) : list string :=
  match s with
  | EmptyString => [EmptyString]
  | String c r =>
      if Ascii.eqb c sep then EmptyString :: split sep r
      else match split sep r with
           | [] => [String c EmptyString]
           | piece :: rest => String c piece :: rest
           end
  end.

(** [sep.join(pieces)] *)
Fixpoint join (sep : ascii) (pieces : list string) : string :=
  match pieces with
  | [] => EmptyString
  | [p] => p
  | p :: rest => p ++ String sep (join sep rest)
  end.

(** Truth value of a [str]: false for the empty string only. *)
Definition truthy (s : string) : bool :=
  match s with EmptyString => false | _ => true end.

Fixpoint all (p : ascii -> bool) (s : string) : bool :=
  match s with
  | EmptyString => true
  | String c r => p c && all p r
  end.

Fixpoint mem (c : ascii) (s : string) : bool :=
  match s with
  | EmptyString => false
  | String d r => Ascii.eqb d c || mem c r
  end.

Definition head (s : string) : option ascii :=
  match s with EmptyString => None | String c _ => Some c end.

Fixpoint last (s : string) : option ascii :=
  match s with
  | EmptyString => None
  | String c EmptyString => Some c
  | String _ r => last r
  end.

End Str.

(** ** Exceptions and results *)

Inductive exn : Type :=
| RuntimeError (msg : string)
| ValueError (literal : string)      (* [int()] on a malformed literal *)
| EngineError (e : string)           (* whatever [create_engine] raises *)
| binascii_Error                     (* [base64.b64decode] *)
| nacl_ValueError (msg : string)     (* [nacl.exceptions.ValueError] *)
| nacl_TypeError (msg : string).     (* [nacl.exceptions.TypeError] *)

Inductive result (A : Type) : Type :=
| Ok (a : A)
| Raise (e : exn).
Arguments Ok {A} a.
Arguments Raise {A} e.

#[global] Instance result_ret : MRet result := @Ok.
#[global] Instance result_bind : MBind result := fun A B f r =>
  match r with Ok a => f a | Raise e => Raise e end.
#[global] Instance result_fmap : FMap result := fun A B f r =>
  match r with Ok a => Ok (f a) | Raise e => Raise e end.

Definition raises {A} (r : result A) : bool :=
  match r with Ok _ => false | Raise _ => true end.

Definition message (e : exn) : string :=
  match e with
  | RuntimeError m | ValueError m | EngineError m
  | nacl_ValueError m | nacl_TypeError m => m
  | binascii_Error => ""
  end.

(** ** Process state *)

Definition loc := nat.       (* identity of a [Config] object *)
Definition Engine := nat.    (* identity of a connection pool *)

Record Config : Type := mkConfig {
  pg_dsn_app : string;
  cors_allowed_origins : list string;
  default_query_interval : Z;
  _engine : option Engine
}.

Definition set_engine (c : Config) (e : Engine) : Config :=
  {| pg_dsn_app := pg_dsn_app c;
     cors_allowed_origins := cors_allowed_origins c;
     default_query_interval := default_query_interval c;
     _engine := Some e |}.

(** The module's constants, fixed when the module is imported. *)
Record Globals : Type := mkGlobals {
  TRUST_PROXY : bool;
  MAX_LOG_BYTES : Z;
  REDACT_KEYS : gset string;
  LOG_DIR : string;
  APP_NAME : string;
  RFC_ENTERPRISE_ID : Z;
  ROTATE_UTC : bool;
  GZIP_AFTER_DAYS : Z;
  KEEP_DAYS : Z;
  PUBLIC_KEY_B64_PATH : string;
  PRIVATE_KEY_B64_PATH : option string
}.

Record Proc : Type := mkProc {
  environ : gmap string string;  (* [os.environ], as it is now *)
  getenv_log : list string;      (* names given to [os.getenv] since import, oldest first *)
  globals : Globals;             (* the module's constants *)
  _cfg : option loc;             (* the module global [_cfg] *)
  heap : list Config;            (* the [Config] objects, by identity *)
  pools : list string            (* URL of every pool constructed, by identity *)
}.

Definition M (A : Type) : Type := Proc -> result A * Proc.

#[global] Instance M_ret : MRet M := fun A a σ => (Ok a, σ).
#[global] Instance M_bind : MBind M := fun A B f m σ =>
  match m σ with
  | (Ok a, σ') => f a σ'
  | (Raise e, σ') => (Raise e, σ')
  end.

Definition lift {A} (r : result A) : M A := fun σ => (r, σ).

Definition getenv (env : gmap string string) (key dflt : string) : string :=
  default dflt (env !! key).

(** [os.getenv(key, dflt)] *)
Definition os_getenv (key dflt : string) : M string := fun σ =>
  (Ok (getenv (environ σ) key dflt),
   mkProc (environ σ) (getenv_log σ ++ [key]) (globals σ) (_cfg σ) (heap σ) (pools σ)).

Definition new_Config (c : Config) : M loc := fun σ =>
  (Ok (length (heap σ)),
   mkProc (environ σ) (getenv_log σ) (globals σ) (_cfg σ) (heap σ ++ [c]) (pools σ)).

Definition set_cfg (l : loc) : M unit := fun σ =>
  (Ok tt,
   mkProc (environ σ) (getenv_log σ) (globals σ) (Some l) (heap σ) (pools σ)).

Definition store (l : loc) (c : Config) (σ : Proc) : Proc :=
  mkProc (environ σ) (getenv_log σ) (globals σ) (_cfg σ) (<[l := c]> (heap σ)) (pools σ).

(** What another part of the process may do to [os.environ]. *)
Definition putenv (key : string) (v : option string) (σ : Proc) : Proc :=
  mkProc (match v with Some s => <[key := s]> (environ σ) | None => delete key (environ σ) end)
         (getenv_log σ) (globals σ) (_cfg σ) (heap σ) (pools σ).

(** ** The list and set comprehensions of [config.py] *)

(** [[o.strip() for o in v.split(",") if o.strip()]] *)
Definition parse_origins (v : string) : list string :=
  map Str.strip (List.filter (fun o => Str.truthy (Str.strip o)) (Str.split "," v)).

(** [{k.strip().lower() for k in v.split(",") if k.strip()}] *)
Definition parse_redact_keys (v : string) : gset string :=
  list_to_set
    (map (fun k => Str.lower (Str.strip k))
         (List.filter (fun k => Str.truthy (Str.strip k)) (Str.split "," v))).

Definition REDACT_KEYS_default : string :=
  "password,new_password,current_password,token,authorization,secret".

(** What the two modules take from Python and from the libraries they
    import; the code of none of it is part of the repository. *)
Class Runtime : Type := {
  (** [int()] on a [str]; [None] when it raises [ValueError]. *)
  int_of_str : string -> option Z;
  (** [sqlalchemy.create_engine(url, pool_pre_ping=True, future=True)]:
      the exception it raises for [url], if any. *)
  create_engine_error : string -> option string;
  (** [pathlib.Path]: construction from a [str], and [Path.expanduser],
      which looks at the environment and may raise [RuntimeError]. *)
  Path : Type;
  Path_of_str : string -> Path;
  expanduser : gmap string string -> Path -> result Path;
  (** [base64.b64decode(data)] with its default arguments; [None] when it
      raises [binascii.Error]. *)
  a2b_base64 : list byte -> option (list byte)
}.

Section Loader.

Context {rt : Runtime}.

Definition int (s : string) : result Z :=
  match int_of_str s with
  | Some n => Ok n
  | None => Raise (ValueError s)
  end.

(** *** Import of the module: lines 13 to 31 *)
Definition import_config (env : gmap string string) : result Globals :=
  let trust_proxy := String.eqb (getenv env "TRUST_PROXY" "1") "1" in
  max_log_bytes ← int (getenv env "MAX_LOG_BYTES" "4096");
  let redact_keys := parse_redact_keys (getenv env "REDACT_KEYS" REDACT_KEYS_default) in
  let log_dir := getenv env "LOG_DIR" "./logs" in
  let app_name := getenv env "APP_NAME" "pgsched-api" in
  rfc_enterprise_id ← int (getenv env "RFC_ENTERPRISE_ID" "32473");
  let rotate_utc := String.eqb (getenv env "LOG_ROTATE_UTC" "1") "1" in
  gzip_after_days ← int (getenv env "GZIP_AFTER_DAYS" "7");
  keep_days ← int (getenv env "KEEP_DAYS" "200");
  let public_key_b64_path := getenv env "PUBLIC_KEY_B64_PATH" "./public_key.base64" in
  let private_key_b64_path := env !! "APP_PRIVATE_KEY_B64_PATH" in
  Ok (mkGlobals trust_proxy max_log_bytes redact_keys log_dir app_name
        rfc_enterprise_id rotate_utc gzip_after_days keep_days
        public_key_b64_path private_key_b64_path).

(** The process right after a successful import: [_cfg = None]. *)
Definition boot (env : gmap string string) : result Proc :=
  g ← import_config env;
  Ok (mkProc env [] g None [] []).

(** *** [Config.engine] *)

Definition create_engine (url : string) : M Engine := fun σ =>
  match create_engine_error url with
  | Some e => (Raise (EngineError e), σ)
  | None =>
      (Ok (length (pools σ)),
       mkProc (environ σ) (getenv_log σ) (globals σ) (_cfg σ) (heap σ) (pools σ ++ [url]))
  end.

(** [self.engine()]; [None] when [self] is not an object of the heap. *)
Definition engine (self : loc) (σ : Proc) : option (result Engine * Proc) :=
  c ← heap σ !! self;
  Some match _engine c with
       | Some e => (Ok e, σ)
       | None =>
           if negb (Str.truthy (pg_dsn_app c))
           then (Raise (RuntimeError "PG_DSN_APP is required"), σ)
           else match create_engine (pg_dsn_app c) σ with
                | (Ok e, σ') => (Ok e, store self (set_engine c e) σ')
                | (Raise x, σ') => (Raise x, σ')
                end
       end.

(** *** [Config.private_key_path] *)
Definition private_key_path (self : loc) : M (option Path) := fun σ =>
  match PRIVATE_KEY_B64_PATH (globals σ) with
  | None => (Ok None, σ)
  | Some p =>
      if negb (Str.truthy p) then (Ok None, σ)
      else (Some <$> expanduser (environ σ) (Path_of_str p), σ)
  end.

(** *** [load_config] and [cfg] *)
Definition load_config : M unit := fun σ =>
  match _cfg σ with
  | Some _ => (Ok tt, σ)
  | None =>
      (pg_raw ← os_getenv "PG_DSN_APP" "";
       let pg := Str.strip pg_raw in
       cors_raw ← os_getenv "CORS_ALLOWED_ORIGINS" "*";
       let cors := parse_origins cors_raw in
       interval_raw ← os_getenv "DEFAULT_QUERY_INTERVAL" "21600";
       default_interval ← lift (int interval_raw);
       l ← new_Config (mkConfig pg cors default_interval None);
       set_cfg l) σ
  end.

Definition cfg : M (option loc) := fun σ =>
  match _cfg σ with
  | None =>
      match load_config σ with
      | (Ok _, σ') => (Ok (_cfg σ'), σ')
      | (Raise e, σ') => (Raise e, σ')
      end
  | Some l => (Ok (Some l), σ)
  end.

End Loader.

(** ** [crypto_utils_sodium.py]: loading the keys *)

Record PublicKey : Type := mkPublicKey { public_bytes : list byte }.
Record PrivateKey : Type := mkPrivateKey { private_bytes : list byte }.

Definition KEY_SIZE : nat := 32.

(** Modelled from the spec: the constructor [nacl.public.PublicKey] is not
    part of the repository; a key is made of exactly 32 raw bytes and any
    other length is refused. *)
Definition PublicKey_of_bytes (raw : list byte) : result PublicKey :=
  if (length raw =? KEY_SIZE)%nat then Ok (mkPublicKey raw)
  else Raise (nacl_ValueError "The public key must be exactly 32 bytes long").

(** Modelled from the spec: the constructor [nacl.public.PrivateKey] is not
    part of the repository; a key is made of exactly 32 raw bytes and any
    other length is refused. *)
Definition PrivateKey_of_bytes (raw : list byte) : result PrivateKey :=
  if (length raw =? KEY_SIZE)%nat then Ok (mkPrivateKey raw)
  else Raise (nacl_TypeError "PrivateKey must be created from a 32 bytes long raw secret key").

Section Keys.

Context {rt : Runtime}.

Definition b64decode (data : list byte) : result (list byte) :=
  match a2b_base64 data with
  | Some raw => Ok raw
  | None => Raise binascii_Error
  end.

Definition load_public_key_b64 (data : list byte) : result PublicKey :=
  b64decode data ≫= PublicKey_of_bytes.

Definition load_private_key_b64 (data : list byte) : result PrivateKey :=
  b64decode data ≫= PrivateKey_of_bytes.

End Keys.

(** A decoder to run the examples with: the loop of CPython's
    [binascii.a2b_base64] in its default mode, which skips the bytes outside
    the alphabet and stops at a complete padding. *)
Module Base64.

Definition digit (b : byte) : option N :=
  let n := Byte.to_N b in
  if ((65 <=? n) && (n <=? 90))%N then Some (n - 65)%N
  else if ((97 <=? n) && (n <=? 122))%N then Some (n - 71)%N
  else if ((48 <=? n) && (n <=? 57))%N then Some (n + 4)%N
  else if (n =? 43)%N then Some 62%N
  else if (n =? 47)%N then Some 63%N
  else None.

Definition out (n : N) : byte := default x00 (Byte.of_N (N.land n 255)).

Fixpoint loop (data : list byte) (quad_pos : nat) (leftchar : N) (pads : nat)
    (acc : list byte) : option (list byte) :=
  match data with
  | [] => if (quad_pos =? 0)%nat then Some (rev acc) else None
  | b :: rest =>
      if (Byte.to_N b =? 61)%N then
        if (2 <=? quad_pos)%nat then
          if (4 <=? quad_pos + S pads)%nat then Some (rev acc)
          else loop rest quad_pos leftchar (S pads) acc
        else loop rest quad_pos leftchar pads acc
      else
        match digit b with
        | None => loop rest quad_pos leftchar pads acc
        | Some v =>
            match quad_pos with
            | 0 => loop rest 1 v 0 acc
            | 1 => loop rest 2 (N.land v 15) 0
                     (out (N.lor (N.shiftl leftchar 2) (N.shiftr v 4)) :: acc)
            | 2 => loop rest 3 (N.land v 3) 0
                     (out (N.lor (N.shiftl leftchar 4) (N.shiftr v 2)) :: acc)
            | _ => loop rest 0 0%N 0
                     (out (N.lor (N.shiftl leftchar 6) v) :: acc)
            end
        end
  end.

Definition decode (data : list byte) : option (list byte) :=
  loop data 0 0%N 0 [].

Definition is_pad (b : byte) : bool := (Byte.to_N b =? 61)%N.

Fixpoint drop_pad (n : nat) (reversed : list byte) : list byte :=
  match n, reversed with
  | S n', b :: rest => if is_pad b then drop_pad n' rest else reversed
  | _, _ => reversed
  end.

(** Valid base64, as RFC 4648 has it: a number of characters that is a
    multiple of four, all of the alphabet, the last one or two of which may
    be the padding [=] instead. *)
Definition valid (data : list byte) : bool :=
  (length data mod 4 =? 0)%nat
  && forallb (fun b => bool_decide (is_Some (digit b))) (drop_pad 2 (rev data)).

End Base64.


(** ** Runs of the process *)

(** What the rest of the program can do with the module: call its
    functions and methods, and change [os.environ]. *)
Inductive Call : Type :=
| call_load_config
| call_cfg
| call_engine (self : loc)
| call_private_key_path (self : loc)
| call_putenv (key : string) (v : option string).

(** What a call gave back, as far as the properties below look at it. *)
Inductive Outcome : Type :=
| out_unit
| out_cfg (l : option loc)
| out_engine (e : Engine)
| out_path
| out_raise (e : exn)
| out_stuck.

Section Runs.

Context {rt : Runtime}.

Definition step (c : Call) (σ : Proc) : Outcome * Proc :=
  match c with
  | call_load_config =>
      match load_config σ with
      | (Ok _, σ') => (out_unit, σ')
      | (Raise e, σ') => (out_raise e, σ')
      end
  | call_cfg =>
      match cfg σ with
      | (Ok l, σ') => (out_cfg l, σ')
      | (Raise e, σ') => (out_raise e, σ')
      end
  | call_engine self =>
      match engine self σ with
      | Some (Ok e, σ') => (out_engine e, σ')
      | Some (Raise e, σ') => (out_raise e, σ')
      | None => (out_stuck, σ)
      end
  | call_private_key_path self =>
      match private_key_path self σ with
      | (Ok _, σ') => (out_path, σ')
      | (Raise e, σ') => (out_raise e, σ')
      end
  | call_putenv key v => (out_unit, putenv key v σ)
  end.

(** The outcomes of a sequence of calls, in order, and the final state. *)
Fixpoint run (calls : list Call) (σ : Proc) : list Outcome * Proc :=
  match calls with
  | [] => ([], σ)
  | c :: rest =>
      let '(o, σ1) := step c σ in
      let '(os, σ2) := run rest σ1 in
      (o :: os, σ2)
  end.

End Runs.

(** The names that a first [load_config] gives to [os.getenv], in order. *)
Definition load_config_reads : list string :=
  ["PG_DSN_APP"; "CORS_ALLOWED_ORIGINS"; "DEFAULT_QUERY_INTERVAL"].

(** The [Config] that [load_config] builds from an environment in which
    [DEFAULT_QUERY_INTERVAL] reads as [n]. *)
Definition loaded (env : gmap string string) (n : Z) : Config :=
  mkConfig (Str.strip (getenv env "PG_DSN_APP" ""))
           (parse_origins (getenv env "CORS_ALLOWED_ORIGINS" "*")) n None.

(** ** The parsing rules, in the words of the specification *)

(** Split on commas, trim each element, drop the elements that are empty
    after trimming. *)
Definition origins_by_spec (v : string) : list string :=
  List.filter Str.truthy (map Str.strip (Str.split "," v)).

(** The comma-separated entries, trimmed, lowercased, the empty ones
    dropped, as a set. *)
Definition redact_keys_by_spec (v : string) : gset string :=
  list_to_set (List.filter Str.truthy (map Str.lower (map Str.strip (Str.split "," v)))).

(** A token that survives the parsing of a list unchanged: not empty, no
    comma, no whitespace at either end. *)
Definition clean_token (t : string) : bool :=
  Str.truthy t && negb (Str.mem "," t)
  && negb (from_option Str.isspace false (Str.head t))
  && negb (from_option Str.isspace false (Str.last t)).

(** ** Values to run the examples with *)

Module Sample.

(** The plain decimal literals of [int()]: whitespace around an optional
    sign and ASCII digits. *)
Fixpoint digits (s : string) (acc : Z) : option Z :=
  match s with
  | EmptyString => Some acc
  | String c r =>
      let n := nat_of_ascii c in
      if ((48 <=? n)%nat && (n <=? 57)%nat)
      then digits r (10 * acc + Z.of_nat (n - 48))%Z
      else None
  end.

Definition decimal (s : string) : option Z :=
  match Str.strip s with
  | EmptyString => None
  | String "-" (String _ _ as r) => Z.opp <$> digits r 0
  | String "+" (String _ _ as r) => digits r 0
  | r => digits r 0
  end.

(** Every URL opens a pool. *)
Definition always_opens (url : string) : option string := None.

(** Paths as strings; [~] alone or before [/] becomes [$HOME]. *)
Definition expand_home (env : gmap string string) (p : string) : result string :=
  match p with
  | String "~" r =>
      match r, env !! "HOME" with
      | EmptyString, Some h => Ok h
      | String "/" _, Some h => Ok (h ++ r)
      | _, _ => Raise (RuntimeError "Could not determine home directory.")
      end
  | _ => Ok p
  end.

#[export] Instance runtime : Runtime := {|
  int_of_str := decimal;
  create_engine_error := always_opens;
  Path := string;
  Path_of_str := fun p => p;
  expanduser := expand_home;
  a2b_base64 := Base64.decode
|}.

Definition globals : Globals :=
  mkGlobals true 4096 (parse_redact_keys REDACT_KEYS_default) "./logs" "pgsched-api"
    32473 true 7 200 "./public_key.base64" None.

(** A process right after import, with the given environment. *)
Definition fresh (env : gmap string string) : Proc := mkProc env [] globals None [] [].

(** The process that the import of the module leaves, in the given
    environment. *)
Definition booted (env : gmap string string) : Proc :=
  match boot env with
  | Ok σ => σ
  | Raise _ => fresh env
  end.

(** A process whose only [Config] has an empty DSN and no engine yet. *)
Definition unusable : Proc :=
  mkProc ∅ [] globals None [mkConfig "" ["*"] 21600 None] [].

Definition env_app : gmap string string :=
  {[ "PG_DSN_APP" := " postgresql://app@db/sched " ]}.

Definition env_blank_dsn : gmap string string :=
  {[ "PG_DSN_APP" := "   " ]}.

Definition env_cors : gmap string string :=
  {[ "CORS_ALLOWED_ORIGINS" := " a , b ,,c " ]}.

Definition env_redact : gmap string string :=
  {[ "REDACT_KEYS" := "Token, PASSWORD" ]}.

Definition env_flags : gmap string string :=
  {[ "TRUST_PROXY" := "yes"; "LOG_ROTATE_UTC" := "1" ]}.

Definition env_key : gmap string string :=
  {[ "APP_PRIVATE_KEY_B64_PATH" := "~/keys/private.base64"; "HOME" := "/home/app" ]}.

(** The base64 text of 32 zero bytes. *)
Definition key_text : list byte :=
  list_byte_of_string "AAAAAAAAAAAAAAAAAAAAAAAAAAAAAAAAAAAAAAAAAAA=".

(** The same text after a byte that is not of the alphabet. *)
Definition key_text_noise : list byte :=
  list_byte_of_string "*AAAAAAAAAAAAAAAAAAAAAAAAAAAAAAAAAAAAAAAAAAA=".

Definition env_bad_interval : gmap string string :=
  {[ "DEFAULT_QUERY_INTERVAL" := "6h"; "PG_DSN_APP" := "postgresql://app@db/sched" ]}.

Definition env_bad_import : gmap string string :=
  {[ "RFC_ENTERPRISE_ID" := "none"; "KEEP_DAYS" := "many" ]}.

(** A process with two [Config] objects of one DSN, neither with a handle. *)
Definition two_configs : Proc :=
  mkProc ∅ [] globals None
    [mkConfig "postgresql://app@db/sched" ["*"] 21600 None;
     mkConfig "postgresql://app@db/sched" [] 60 None] [].

(** Calls that a program may make, in this order. *)
Definition calls : list Call :=
  [call_cfg; call_putenv "PG_DSN_APP" (Some "postgresql://other/db");
   call_putenv "APP_PRIVATE_KEY_B64_PATH" None; call_engine 0; call_load_config;
   call_private_key_path 0; call_engine 0; call_cfg].

End Sample.

(** ** Conditions on a process *)

(** [_cfg], when it is set, is an object of the heap. *)
Definition cfg_live (σ : Proc) : Prop :=
  forall l, _cfg σ = Some l -> l < length (heap σ).

(** Every handle kept in a [Config] is a pool that was opened with the DSN
    of that [Config], and no two objects keep the same handle. *)
Definition engines_consistent (σ : Proc) : Prop :=
  (forall l c h, heap σ !! l = Some c -> _engine c = Some h ->
     pools σ !! h = Some (pg_dsn_app c))
  /\ (forall l1 l2 c1 c2 h, heap σ !! l1 = Some c1 -> heap σ !! l2 = Some c2 ->
       _engine c1 = Some h -> _engine c2 = Some h -> l1 = l2).

(** [c'] is [c] later on: the three settings are the same, and a handle
    that [c] keeps is kept. *)
Definition same_settings (c c' : Config) : Prop :=
  pg_dsn_app c' = pg_dsn_app c
  /\ cors_allowed_origins c' = cors_allowed_origins c
  /\ default_query_interval c' = default_query_interval c
  /\ (forall h, _engine c = Some h -> _engine c' = Some h).


(** The number of [engine()] calls in a sequence of calls. *)
Definition engine_calls (calls : list Call) : nat :=
  length (List.filter (fun c => match c with call_engine _ => true | _ => false end) calls).

(** * Properties *)

(** ** Strings *)

Section StrFacts.
Import Str.

Lemma append_String (c : ascii) (s t : string) : String c s ++ t = String c (s ++ t).
Proof. reflexivity. Qed.

Lemma append_empty (t : string) : "" ++ t = t.
Proof. reflexivity. Qed.

Lemma lstrip_decompose (s : string) :
  exists l, s = l ++ lstrip s /\ all isspace l = true.
Proof.
  induction s as [|c r [l [Hr Hl]]]; simpl.
  - exists ""; auto.
  - destruct (isspace c) eqn:Hc.
    + exists (String c l). rewrite append_String, <- Hr. simpl.
      rewrite Hc, Hl. auto.
    + exists ""; auto.
Qed.

Lemma lstrip_head (s : string) :
  from_option isspace false (head (lstrip s)) = false.
Proof.
  induction s as [|c r IH]; simpl; auto.
  destruct (isspace c) eqn:Hc; simpl; auto.
Qed.

Lemma rstrip_decompose (s : string) :
  exists r, s = rstrip s ++ r /\ all isspace r = true.
Proof.
  induction s as [|c s [r [Hs Hr]]]; simpl.
  - exists ""; auto.
  - destruct (rstrip s) as [|d t] eqn:Ht.
    + rewrite append_empty in Hs. subst r.
      destruct (isspace c) eqn:Hc.
      * exists (String c s). rewrite append_empty. simpl. rewrite Hc, Hr. auto.
      * exists s. auto.
    + exists r. rewrite append_String, <- Hs. auto.
Qed.

Lemma rstrip_last (s : string) :
  from_option isspace false (last (rstrip s)) = false.
Proof.
  induction s as [|c s IH]; simpl; auto.
  destruct (rstrip s) as [|d t] eqn:Ht.
  - destruct (isspace c) eqn:Hc; simpl; auto.
  - exact IH.
Qed.

Lemma rstrip_head (s : string) :
  from_option isspace false (head s) = false -> head (rstrip s) = head s.
Proof.
  destruct s as [|c s]; simpl; auto.
  intros Hc. destruct (rstrip s); [rewrite Hc|]; reflexivity.
Qed.

(** [strip] removes a run of whitespace at each end and nothing else, and
    leaves no whitespace at either end. *)
Lemma strip_decompose (s : string) :
  exists l r, s = l ++ strip s ++ r
    /\ all isspace l = true /\ all isspace r = true
    /\ from_option isspace false (head (strip s)) = false
    /\ from_option isspace false (last (strip s)) = false.
Proof.
  destruct (lstrip_decompose s) as [l [Hl Hls]].
  destruct (rstrip_decompose (lstrip s)) as [r [Hr Hrs]].
  exists l, r. unfold strip. repeat split; auto.
  - rewrite <- Hr. exact Hl.
  - rewrite rstrip_head; apply lstrip_head.
  - apply rstrip_last.
Qed.

Lemma lstrip_all_space (s : string) : all isspace s = true -> lstrip s = "".
Proof.
  induction s as [|c r IH]; simpl; auto.
  destruct (isspace c); simpl; [exact IH | discriminate].
Qed.

Lemma strip_all_space (s : string) : all isspace s = true -> strip s = "".
Proof. intros H. unfold strip. rewrite lstrip_all_space; auto. Qed.



Lemma lower_truthy (s : string) : truthy (lower s) = truthy s.
Proof. destruct s; reflexivity. Qed.

Lemma split_nonempty (sep : ascii) (s : string) : split sep s <> [].
Proof.
  induction s as [|c r IH]; simpl; [discriminate|].
  destruct (Ascii.eqb c sep); [discriminate|].
  destruct (split sep r); [contradiction | discriminate].
Qed.


Lemma split_no_sep (sep : ascii) (s : string) :
  Forall (fun p => mem sep p = false) (split sep s).
Proof.
  induction s as [|c r IH]; simpl.
  - constructor; auto.
  - destruct (Ascii.eqb c sep) eqn:Hc.
    + constructor; auto.
    + destruct (split sep r) as [|p rest].
      * constructor; simpl; [rewrite Hc|]; auto.
      * inversion IH; subst. constructor; auto. simpl. rewrite Hc. auto.
Qed.

End StrFacts.

(** ** The comprehensions *)

Section ParseFacts.
Import Str.

Lemma map_filter_comm {A B} (f : A -> B) (p : B -> bool) (l : list A) :
  map f (List.filter (fun x => p (f x)) l) = List.filter p (map f l).
Proof.
  induction l as [|x l IH]; simpl; auto.
  destruct (p (f x)); simpl; rewrite IH; reflexivity.
Qed.

(** The comprehension of the code, filter first, and the rule of the
    specification, trim first, give the same list. *)
Lemma parse_origins_by_spec (v : string) : parse_origins v = origins_by_spec v.
Proof. unfold parse_origins, origins_by_spec. apply map_filter_comm. Qed.

Lemma parse_redact_keys_by_spec (v : string) :
  parse_redact_keys v = redact_keys_by_spec v.
Proof.
  unfold parse_redact_keys, redact_keys_by_spec. f_equal.
  rewrite <- (map_filter_comm lower truthy), <- (map_filter_comm strip (fun s => truthy (lower s))).
  rewrite map_map. f_equal. apply List.filter_ext. intros k. symmetry. apply lower_truthy.
Qed.

Lemma lstrip_id (s : string) :
  from_option isspace false (head s) = false -> lstrip s = s.
Proof. destruct s as [|c r]; simpl; auto. intros ->. reflexivity. Qed.

Lemma rstrip_id (s : string) :
  from_option isspace false (last s) = false -> rstrip s = s.
Proof.
  induction s as [|c r IH]; auto.
  destruct r as [|d t].
  - simpl. intros ->. reflexivity.
  - intros H. change (last (String c (String d t))) with (last (String d t)) in H.
    change (rstrip (String c (String d t)))
      with (match rstrip (String d t) with
            | EmptyString => if isspace c then EmptyString else String c EmptyString
            | r' => String c r'
            end).
    rewrite (IH H). reflexivity.
Qed.

Lemma strip_clean (t : string) : clean_token t = true -> strip t = t.
Proof.
  unfold clean_token. rewrite !andb_true_iff, !negb_true_iff.
  intros [[[_ _] Hh] Hl]. unfold strip. rewrite (lstrip_id _ Hh). apply rstrip_id, Hl.
Qed.

Lemma split_no_sep_id (sep : ascii) (t : string) :
  mem sep t = false -> split sep t = [t].
Proof.
  induction t as [|c r IH]; simpl; auto.
  intros H. apply orb_false_iff in H as [Hc Hr].
  rewrite Hc, (IH Hr). reflexivity.
Qed.

Lemma split_append (sep : ascii) (t rest : string) :
  mem sep t = false ->
  split sep (t ++ String sep rest) = t :: split sep rest.
Proof.
  induction t as [|c r IH]; intros H.
  - rewrite append_empty. simpl. rewrite Ascii.eqb_refl. reflexivity.
  - simpl in H. apply orb_false_iff in H as [Hc Hr].
    rewrite append_String. simpl. rewrite Hc, (IH Hr). reflexivity.
Qed.

(** [split] undoes [join] on pieces without separator. *)
Lemma split_join (sep : ascii) (pieces : list string) :
  pieces <> [] -> Forall (fun p => mem sep p = false) pieces ->
  split sep (join sep pieces) = pieces.
Proof.
  induction pieces as [|p rest IH]; [contradiction|].
  intros _ Hall. inversion Hall as [|? ? Hp Hrest]; subst.
  destruct rest as [|q rest].
  - simpl. apply split_no_sep_id, Hp.
  - change (join sep (p :: q :: rest)) with (p ++ String sep (join sep (q :: rest))).
    rewrite (split_append _ _ _ Hp), IH; auto.
Qed.

(** Any sequence of clean tokens, repeated ones too, comes back from its
    comma-separated form as it is: same elements, same order, same
    number of times. *)
Lemma parse_origins_join (tokens : list string) :
  forallb clean_token tokens = true ->
  parse_origins (join "," tokens) = tokens.
Proof.
  intros Hclean. destruct tokens as [|t ts]; [reflexivity|].
  unfold parse_origins. rewrite split_join; [| discriminate |].
  - induction (t :: ts) as [|x l IH]; [reflexivity|].
    simpl in Hclean. apply andb_true_iff in Hclean as [Hx Hl].
    simpl. rewrite (strip_clean _ Hx).
    assert (truthy x = true) as ->.
    { unfold clean_token in Hx. rewrite !andb_true_iff in Hx. tauto. }
    simpl. rewrite (strip_clean _ Hx), (IH Hl). reflexivity.
  - apply Forall_forall. intros x Hx.
    rewrite forallb_forall in Hclean. specialize (Hclean x).
    unfold clean_token in Hclean. rewrite !andb_true_iff, !negb_true_iff in Hclean.
    apply Hclean. apply list_elem_of_In, Hx.
Qed.

End ParseFacts.

(** ** The settings loader *)

Section LoaderFacts.

Context {rt : Runtime}.

Lemma load_config_unset (σ : Proc) :
  _cfg σ = None ->
  load_config σ =
    match int_of_str (getenv (environ σ) "DEFAULT_QUERY_INTERVAL" "21600") with
    | Some n =>
        (Ok tt, mkProc (environ σ) (getenv_log σ ++ load_config_reads) (globals σ)
                  (Some (length (heap σ))) (heap σ ++ [loaded (environ σ) n]) (pools σ))
    | None =>
        (Raise (ValueError (getenv (environ σ) "DEFAULT_QUERY_INTERVAL" "21600")),
         mkProc (environ σ) (getenv_log σ ++ load_config_reads) (globals σ)
           None (heap σ) (pools σ))
    end.
Proof.
  intros H. unfold load_config. rewrite H.
  unfold mbind, M_bind, os_getenv, lift, int, new_Config, set_cfg, load_config_reads; simpl.
  rewrite <- !app_assoc; simpl.
  destruct (int_of_str _); simpl; rewrite ?H; reflexivity.
Qed.

Lemma load_config_set (σ : Proc) (l : loc) :
  _cfg σ = Some l -> load_config σ = (Ok tt, σ).
Proof. intros H. unfold load_config. rewrite H. reflexivity. Qed.

Lemma cfg_set (σ : Proc) (l : loc) :
  _cfg σ = Some l -> cfg σ = (Ok (Some l), σ).
Proof. intros H. unfold cfg. rewrite H. reflexivity. Qed.

(** A successful first call: what it read and what it stored. *)
Lemma load_config_first (σ σ1 : Proc) :
  _cfg σ = None -> load_config σ = (Ok tt, σ1) ->
  exists n,
    int_of_str (getenv (environ σ) "DEFAULT_QUERY_INTERVAL" "21600") = Some n
    /\ σ1 = mkProc (environ σ) (getenv_log σ ++ load_config_reads) (globals σ)
              (Some (length (heap σ))) (heap σ ++ [loaded (environ σ) n]) (pools σ).
Proof.
  intros H. rewrite (load_config_unset _ H).
  destruct (int_of_str _) as [n|]; [|discriminate].
  intros [= <-]. exists n. auto.
Qed.

Lemma engine_lookup (σ : Proc) (self : loc) (c : Config) :
  heap σ !! self = Some c ->
  engine self σ =
    Some match _engine c with
         | Some e => (Ok e, σ)
         | None =>
             if negb (Str.truthy (pg_dsn_app c))
             then (Raise (RuntimeError "PG_DSN_APP is required"), σ)
             else match create_engine_error (pg_dsn_app c) with
                  | Some x => (Raise (EngineError x), σ)
                  | None =>
                      (Ok (length (pools σ)),
                       mkProc (environ σ) (getenv_log σ) (globals σ) (_cfg σ)
                         (<[self := set_engine c (length (pools σ))]> (heap σ))
                         (pools σ ++ [pg_dsn_app c]))
                  end
         end.
Proof.
  intros H. unfold engine. rewrite H. simpl.
  destruct (_engine c); auto.
  destruct (negb _); auto.
  unfold create_engine. destruct (create_engine_error _); reflexivity.
Qed.

Lemma engine_cached_lookup (σ : Proc) (self : loc) (c : Config) (h : Engine) :
  heap σ !! self = Some c -> _engine c = Some h ->
  engine self σ = Some (Ok h, σ).
Proof. intros Hc Hh. rewrite (engine_lookup _ _ _ Hc), Hh. reflexivity. Qed.

(** After a successful call the handle is in the object. *)
Lemma engine_ok_cached (σ σ1 : Proc) (self : loc) (h : Engine) :
  engine self σ = Some (Ok h, σ1) ->
  exists c, heap σ1 !! self = Some c /\ _engine c = Some h.
Proof.
  unfold engine. destruct (heap σ !! self) as [c|] eqn:Hc; [|discriminate].
  simpl. destruct (_engine c) as [e|] eqn:He.
  - intros [= <- <-]. eauto.
  - destruct (negb _); [discriminate|].
    unfold create_engine. destruct (create_engine_error _); [discriminate|].
    intros [= <- <-]. exists (set_engine c (length (pools σ))). split; auto.
    simpl. apply list_lookup_insert_eq. eapply lookup_lt_Some, Hc.
Qed.

(** *** What a step keeps *)

Lemma step_keeps_cfg (c : Call) (σ : Proc) (l : loc) :
  _cfg σ = Some l ->
  _cfg (step c σ).2 = Some l
  /\ getenv_log (step c σ).2 = getenv_log σ
  /\ length (heap (step c σ).2) = length (heap σ)
  /\ (c = call_cfg -> (step c σ).1 = out_cfg (Some l))
  /\ (c = call_load_config -> (step c σ).1 = out_unit).
Proof.
  intros H. destruct c as [| |self|self|k v]; simpl.
  - rewrite (load_config_set _ _ H). simpl. repeat split; auto; discriminate.
  - rewrite (cfg_set _ _ H). simpl. repeat split; auto; discriminate.
  - assert (forall o σ', (o, σ') = step (call_engine self) σ ->
              _cfg σ' = Some l /\ getenv_log σ' = getenv_log σ
              /\ length (heap σ') = length (heap σ)) as Hk.
    { simpl. destruct (heap σ !! self) as [c|] eqn:Hc.
      - rewrite (engine_lookup _ _ _ Hc).
        destruct (_engine c); [intros ? ? [= -> ->]; auto|].
        destruct (negb _); [intros ? ? [= -> ->]; auto|].
        destruct (create_engine_error _); intros ? ? [= -> ->]; auto.
        simpl. rewrite length_insert. auto.
      - unfold engine. rewrite Hc. simpl. intros ? ? [= -> ->]; auto. }
    destruct (step (call_engine self) σ) as [o σ'] eqn:Hs. simpl in Hs. rewrite Hs.
    destruct (Hk o σ') as (? & ? & ?); [simpl; congruence|].
    simpl. repeat split; auto; discriminate.
  - unfold private_key_path.
    destruct (PRIVATE_KEY_B64_PATH _) as [p|]; simpl; [|repeat split; auto; discriminate].
    destruct (negb _); simpl; [repeat split; auto; discriminate|].
    destruct (expanduser _ _); simpl; repeat split; auto; discriminate.
  - repeat split; auto; discriminate.
Qed.

Lemma run_keeps_cfg (calls : list Call) (σ : Proc) (l : loc) :
  _cfg σ = Some l ->
  _cfg (run calls σ).2 = Some l
  /\ getenv_log (run calls σ).2 = getenv_log σ
  /\ length (heap (run calls σ).2) = length (heap σ)
  /\ Forall2 (fun c o => (c = call_cfg -> o = out_cfg (Some l))
                      /\ (c = call_load_config -> o = out_unit))
       calls (run calls σ).1.
Proof.
  revert σ. induction calls as [|c rest IH]; intros σ H; simpl.
  - repeat split; auto.
  - destruct (step_keeps_cfg c σ l H) as (H1 & H2 & H3 & H4 & H5).
    destruct (step c σ) as [o σ1]. simpl in *.
    destruct (IH σ1 H1) as (I1 & I2 & I3 & I4).
    destruct (run rest σ1) as [os σ2]. simpl in *.
    repeat split; try congruence. constructor; auto.
Qed.

End LoaderFacts.

Section EngineFacts.

Context {rt : Runtime}.

Lemma load_config_grows (σ : Proc) :
  exists extra, heap (load_config σ).2 = (heap σ ++ extra)%list
    /\ pools (load_config σ).2 = pools σ.
Proof.
  destruct (_cfg σ) as [l|] eqn:Hl.
  - rewrite (load_config_set _ _ Hl). exists []. simpl. rewrite app_nil_r. auto.
  - rewrite (load_config_unset _ Hl). destruct (int_of_str _); simpl; eauto.
    exists []. rewrite app_nil_r. auto.
Qed.

Lemma cfg_grows (σ : Proc) :
  exists extra, heap (cfg σ).2 = (heap σ ++ extra)%list /\ pools (cfg σ).2 = pools σ.
Proof.
  unfold cfg. destruct (_cfg σ) as [l|] eqn:Hl.
  - exists []. simpl. rewrite app_nil_r. auto.
  - destruct (load_config_grows σ) as (extra & Hh & Hp).
    destruct (load_config σ) as [[u|e] σ']; simpl in *; eauto.
Qed.

Lemma private_key_path_pure (self : loc) (σ : Proc) :
  (private_key_path self σ).2 = σ.
Proof.
  unfold private_key_path. destruct (PRIVATE_KEY_B64_PATH _); auto.
  destruct (negb _); auto.
Qed.

(** A cached handle stays in its object, whatever is called next, and
    calls on that object open no pool. *)
Lemma step_keeps_engine (c : Call) (σ : Proc) (self : loc) (obj : Config) (h : Engine) :
  heap σ !! self = Some obj -> _engine obj = Some h ->
  (exists obj', heap (step c σ).2 !! self = Some obj' /\ _engine obj' = Some h)
  /\ (c = call_engine self -> (step c σ).1 = out_engine h)
  /\ ((forall l, c = call_engine l -> l = self) -> pools (step c σ).2 = pools σ).
Proof.
  intros Hobj Hh. destruct c as [| |l|l|k v]; simpl.
  - destruct (load_config_grows σ) as (extra & Hheap & Hpools).
    destruct (load_config σ) as [[u|e] σ']; simpl in *;
      (split; [exists obj; split; auto; rewrite Hheap; apply lookup_app_l_Some, Hobj
              | split; [discriminate | auto]]).
  - destruct (cfg_grows σ) as (extra & Hheap & Hpools).
    destruct (cfg σ) as [[u|e] σ']; simpl in *;
      (split; [exists obj; split; auto; rewrite Hheap; apply lookup_app_l_Some, Hobj
              | split; [discriminate | auto]]).
  - destruct (decide (l = self)) as [->|Hne].
    + rewrite (engine_cached_lookup _ _ _ _ Hobj Hh). simpl. eauto.
    + split; [|split; [congruence | intros Hself; destruct Hne; auto]].
      destruct (heap σ !! l) as [other|] eqn:Hother.
      * rewrite (engine_lookup _ _ _ Hother).
        destruct (_engine other); simpl; eauto.
        destruct (negb _); simpl; eauto.
        destruct (create_engine_error _); simpl; eauto.
        exists obj. split; auto. rewrite list_lookup_insert_ne; auto.
      * unfold engine. rewrite Hother. simpl. eauto.
  - pose proof (private_key_path_pure l σ) as Hp.
    destruct (private_key_path l σ) as [[u|e] σ']; simpl in *; subst σ';
      (split; [eauto | split; [discriminate | auto]]).
  - split; [eauto | split; [discriminate | auto]].
Qed.

Lemma run_keeps_engine (calls : list Call) (σ : Proc) (self : loc) (obj : Config) (h : Engine) :
  heap σ !! self = Some obj -> _engine obj = Some h ->
  (exists obj', heap (run calls σ).2 !! self = Some obj' /\ _engine obj' = Some h)
  /\ Forall2 (fun c o => c = call_engine self -> o = out_engine h) calls (run calls σ).1
  /\ (Forall (fun c => forall l, c = call_engine l -> l = self) calls ->
      pools (run calls σ).2 = pools σ).
Proof.
  revert σ obj. induction calls as [|c rest IH]; intros σ obj Hobj Hh; simpl.
  - split; [eauto | split; [constructor | auto]].
  - destruct (step_keeps_engine c σ self obj h Hobj Hh) as ((obj1 & Hobj1 & Hh1) & Hout & Hpools).
    destruct (step c σ) as [o σ1]. simpl in *.
    destruct (IH σ1 obj1 Hobj1 Hh1) as (Hkeep & Houts & Hpools').
    destruct (run rest σ1) as [os σ2]. simpl in *.
    split; [exact Hkeep | split; [constructor; auto|]].
    intros Hall. inversion Hall; subst. rewrite Hpools', Hpools; auto.
Qed.

End EngineFacts.

(** ** Small runs of the definitions *)

Example strip_ex : Str.strip "  a b  " = "a b".
Proof. reflexivity. Qed.

Example split_ex : Str.split "," " a , b ,,c " = [" a "; " b "; ""; "c "].
Proof. reflexivity. Qed.

Example split_empty : Str.split "," "" = [""].
Proof. reflexivity. Qed.

Example lower_ex : Str.lower "PassWord_1" = "password_1".
Proof. reflexivity. Qed.

Example b64_ex :
  Base64.decode (list_byte_of_string "aGVsbG8=") = Some (list_byte_of_string "hello").
Proof. reflexivity. Qed.

Example b64_bad : Base64.decode (list_byte_of_string "aGVsb") = None.
Proof. reflexivity. Qed.

Example b64_key : length <$> Base64.decode Sample.key_text = Some 32.
Proof. reflexivity. Qed.

Example decimal_ex : Sample.decimal " 21600 " = Some 21600%Z /\ Sample.decimal "6h" = None.
Proof. split; reflexivity. Qed.

Example load_ex :
  load_config (rt := Sample.runtime) (Sample.fresh Sample.env_app)
  = (Ok tt, mkProc Sample.env_app load_config_reads Sample.globals (Some 0)
              [mkConfig "postgresql://app@db/sched" ["*"] 21600 None] []).
Proof. reflexivity. Qed.

(** ** The singleton *)

Section Singleton.

Context {rt : Runtime}.

(** C2. [load_config] is idempotent: when a first call has built the
    singleton, reading the three variables once, then after any further
    calls of the module (and any change of the environment in between)
    [_cfg] is still that same object, nothing more was read from the
    environment, no other [Config] was built, every [load_config] was a
    no-op and every [cfg()] returned that object. *)
Theorem load_config_idempotent (σ σ1 : Proc) :
  _cfg σ = None -> load_config σ = (Ok tt, σ1) ->
  exists l,
    _cfg σ1 = Some l
    /\ getenv_log σ1 = (getenv_log σ ++ load_config_reads)%list
    /\ forall calls,
         _cfg (run calls σ1).2 = Some l
         /\ getenv_log (run calls σ1).2 = getenv_log σ1
         /\ length (heap (run calls σ1).2) = length (heap σ1)
         /\ load_config (run calls σ1).2 = (Ok tt, (run calls σ1).2)
         /\ cfg (run calls σ1).2 = (Ok (Some l), (run calls σ1).2)
         /\ Forall2 (fun c o => (c = call_cfg -> o = out_cfg (Some l))
                             /\ (c = call_load_config -> o = out_unit))
              calls (run calls σ1).1.
Proof.
  intros Hnone Hload.
  destruct (load_config_first _ _ Hnone Hload) as (n & _ & ->).
  exists (length (heap σ)). simpl. repeat split; auto.
  all: destruct (run_keeps_cfg calls
         (mkProc (environ σ) (getenv_log σ ++ load_config_reads) (globals σ)
            (Some (length (heap σ))) (heap σ ++ [loaded (environ σ) n]) (pools σ))
         (length (heap σ)) eq_refl) as (K1 & K2 & K3 & K4); auto.
  - eapply load_config_set, K1.
  - eapply cfg_set, K1.
Qed.

(** C4. Once [engine()] has succeeded on a [Config], every later call on
    that object returns the same handle and leaves the process as it is;
    this stays so after any other calls of the module, and as long as no
    other object is asked for its engine no further pool is opened. *)
Theorem engine_cached (σ σ1 : Proc) (self : loc) (h : Engine) :
  engine self σ = Some (Ok h, σ1) ->
  engine self σ1 = Some (Ok h, σ1)
  /\ forall calls,
       engine self (run calls σ1).2 = Some (Ok h, (run calls σ1).2)
       /\ Forall2 (fun c o => c = call_engine self -> o = out_engine h)
            calls (run calls σ1).1
       /\ (Forall (fun c => forall l, c = call_engine l -> l = self) calls ->
           pools (run calls σ1).2 = pools σ1).
Proof.
  intros Hok. destruct (engine_ok_cached _ _ _ _ Hok) as (obj & Hobj & Hh).
  split; [eapply engine_cached_lookup; eauto|].
  intros calls.
  destruct (run_keeps_engine calls σ1 self obj h Hobj Hh) as ((obj' & Hobj' & Hh') & Houts & Hpools).
  split; [eapply engine_cached_lookup; eauto | auto].
Qed.

(** C3, as amended. On a [Config] whose [pg_dsn_app] is empty and whose
    engine is not built yet, [engine()] raises [RuntimeError] with the
    message "PG_DSN_APP is required"; the process is left as it was, so
    the object still has no engine and no pool was opened. *)
Theorem engine_empty_dsn (σ : Proc) (self : loc) (c : Config) :
  heap σ !! self = Some c -> pg_dsn_app c = "" -> _engine c = None ->
  exists σ',
    engine self σ = Some (Raise (RuntimeError "PG_DSN_APP is required"), σ')
    /\ σ' = σ
    /\ (exists c', heap σ' !! self = Some c' /\ _engine c' = None)
    /\ pools σ' = pools σ.
Proof.
  intros Hc Hdsn He. exists σ.
  rewrite (engine_lookup _ _ _ Hc), He, Hdsn. simpl. eauto 6.
Qed.

End Singleton.

Lemma load_config_idempotent_witness :
  exists l, _cfg (load_config (rt := Sample.runtime) (Sample.fresh Sample.env_app)).2 = Some l.
Proof.
  destruct (load_config_idempotent (rt := Sample.runtime)
              (Sample.fresh Sample.env_app)
              (load_config (rt := Sample.runtime) (Sample.fresh Sample.env_app)).2
              eq_refl eq_refl) as (l & Hl & _).
  exists l. exact Hl.
Defined.

Lemma engine_cached_witness :
  engine (rt := Sample.runtime) 0
    (mkProc Sample.env_app load_config_reads Sample.globals (Some 0)
       [mkConfig "postgresql://app@db/sched" ["*"] 21600 (Some 0)] ["postgresql://app@db/sched"])
  = Some (Ok 0,
      mkProc Sample.env_app load_config_reads Sample.globals (Some 0)
       [mkConfig "postgresql://app@db/sched" ["*"] 21600 (Some 0)] ["postgresql://app@db/sched"]).
Proof.
  apply (engine_cached (rt := Sample.runtime)
           (mkProc Sample.env_app load_config_reads Sample.globals (Some 0)
              [mkConfig "postgresql://app@db/sched" ["*"] 21600 None] [])).
  reflexivity.
Defined.

Lemma engine_empty_dsn_witness :
  exists σ',
    engine (rt := Sample.runtime) 0 Sample.unusable
    = Some (Raise (RuntimeError "PG_DSN_APP is required"), σ')
    /\ σ' = Sample.unusable
    /\ (exists c', heap σ' !! 0 = Some c' /\ _engine c' = None)
    /\ pools σ' = pools Sample.unusable.
Proof.
  apply (engine_empty_dsn (rt := Sample.runtime) Sample.unusable 0
           (mkConfig "" ["*"] 21600 None)); reflexivity.
Defined.

(** C3, as the specification words it, fails: the message is not
    "database DSN is required". *)
Lemma engine_empty_dsn_message_counterexample :
  ~ exists e σ',
      engine (rt := Sample.runtime) 0 Sample.unusable = Some (Raise e, σ')
      /\ message e = "database DSN is required".
Proof.
  intros (e & σ' & Hrun & Hmsg). vm_compute in Hrun.
  injection Hrun as <- _. discriminate Hmsg.
Qed.

(** ** What is read from the environment *)

Section Parsing.

Context {rt : Runtime}.

Lemma import_config_ok (env : gmap string string) (g : Globals) :
  import_config env = Ok g ->
  TRUST_PROXY g = String.eqb (getenv env "TRUST_PROXY" "1") "1"
  /\ ROTATE_UTC g = String.eqb (getenv env "LOG_ROTATE_UTC" "1") "1"
  /\ REDACT_KEYS g = parse_redact_keys (getenv env "REDACT_KEYS" REDACT_KEYS_default)
  /\ PRIVATE_KEY_B64_PATH g = env !! "APP_PRIVATE_KEY_B64_PATH".
Proof.
  unfold import_config, int, mbind, result_bind.
  repeat (destruct (int_of_str _); [|discriminate]).
  intros [= <-]. auto.
Qed.

(** C6. The two boolean constants are true exactly when the value of
    their variable, "1" when the variable is absent, is the string "1";
    so they are true when it is absent and false for "0", "yes" and
    "true". *)
Theorem boolean_flags (env : gmap string string) (g : Globals) :
  import_config env = Ok g ->
  (TRUST_PROXY g = true <-> getenv env "TRUST_PROXY" "1" = "1")
  /\ (ROTATE_UTC g = true <-> getenv env "LOG_ROTATE_UTC" "1" = "1")
  /\ (env !! "TRUST_PROXY" = None -> TRUST_PROXY g = true)
  /\ (env !! "LOG_ROTATE_UTC" = None -> ROTATE_UTC g = true)
  /\ (forall v, env !! "TRUST_PROXY" = Some v -> TRUST_PROXY g = true <-> v = "1")
  /\ (forall v, env !! "LOG_ROTATE_UTC" = Some v -> ROTATE_UTC g = true <-> v = "1")
  /\ (forall v, In v ["0"; "yes"; "true"] ->
        (env !! "TRUST_PROXY" = Some v -> TRUST_PROXY g = false)
        /\ (env !! "LOG_ROTATE_UTC" = Some v -> ROTATE_UTC g = false)).
Proof.
  intros Himp. destruct (import_config_ok _ _ Himp) as (Ht & Hr & _).
  rewrite Ht, Hr. clear Ht Hr Himp.
  split; [apply String.eqb_eq|]. split; [apply String.eqb_eq|].
  unfold getenv.
  split; [intros ->; reflexivity|]. split; [intros ->; reflexivity|].
  split; [intros v ->; apply String.eqb_eq|].
  split; [intros v ->; apply String.eqb_eq|].
  intros v Hv. simpl in Hv.
  split; intros ->; destruct Hv as [<-|[<-|[<-|[]]]]; reflexivity.
Qed.

(** C8. The set of redacted keys is the set of the comma-separated
    entries of the variable, trimmed, lowercased, the empty ones dropped;
    "Token, PASSWORD" gives {"token", "password"}. *)
Theorem redact_keys_parsed (env : gmap string string) (g : Globals) :
  import_config env = Ok g ->
  REDACT_KEYS g = redact_keys_by_spec (getenv env "REDACT_KEYS" REDACT_KEYS_default)
  /\ (forall x, x ∈ REDACT_KEYS g <->
        x <> "" /\ exists k, In k (Str.split "," (getenv env "REDACT_KEYS" REDACT_KEYS_default))
                        /\ x = Str.lower (Str.strip k))
  /\ (env !! "REDACT_KEYS" = Some "Token, PASSWORD" ->
      REDACT_KEYS g = {[ "token"; "password" ]}).
Proof.
  intros Himp. destruct (import_config_ok _ _ Himp) as (_ & _ & Hk & _).
  rewrite Hk. split; [apply parse_redact_keys_by_spec | split].
  - intros x. rewrite parse_redact_keys_by_spec. unfold redact_keys_by_spec.
    rewrite elem_of_list_to_set, list_elem_of_In, filter_In, map_map, in_map_iff.
    split.
    + intros [(k & <- & Hin) Ht]. split; [|eauto].
      intros E. rewrite E in Ht. discriminate.
    + intros [Hx (k & Hin & ->)]. split; [eauto|].
      destruct (Str.lower (Str.strip k)); [contradiction | reflexivity].
  - unfold getenv. intros ->. reflexivity.
Qed.

(** C9. [private_key_path()] returns [None] when the variable was unset
    or empty when the module was imported; otherwise it returns what
    [expanduser] makes of the configured path.  Nothing but the
    environment is looked at and the process is left as it is. *)
Theorem private_key_path_spec (env : gmap string string) (σ : Proc) (self : loc) :
  import_config env = Ok (globals σ) ->
  (env !! "APP_PRIVATE_KEY_B64_PATH" = None \/ env !! "APP_PRIVATE_KEY_B64_PATH" = Some ""
     -> private_key_path self σ = (Ok None, σ))
  /\ (forall p, env !! "APP_PRIVATE_KEY_B64_PATH" = Some p -> p <> "" ->
        private_key_path self σ = (Some <$> expanduser (environ σ) (Path_of_str p), σ)).
Proof.
  intros Himp. destruct (import_config_ok _ _ Himp) as (_ & _ & _ & Hp).
  unfold private_key_path. rewrite Hp. split.
  - intros [-> | ->]; reflexivity.
  - intros p -> Hne. destruct p; [contradiction | reflexivity].
Qed.

End Parsing.

Section Loaded.

Context {rt : Runtime}.

(** What a successful first [load_config] leaves behind. *)
Lemma load_config_stores (σ σ1 : Proc) :
  _cfg σ = None -> load_config σ = (Ok tt, σ1) ->
  exists l n,
    _cfg σ1 = Some l /\ heap σ1 !! l = Some (loaded (environ σ) n)
    /\ pools σ1 = pools σ.
Proof.
  intros Hnone Hload.
  destruct (load_config_first _ _ Hnone Hload) as (n & _ & ->).
  exists (length (heap σ)), n. simpl. repeat split; auto.
  apply list_lookup_middle. reflexivity.
Qed.

(** C7. The list of origins that [load_config] stores is the value of
    the variable ("*" when absent) split on commas, each element trimmed,
    the empty ones dropped.  " a , b ,,c " gives ["a"; "b"; "c"], and any
    sequence of clean tokens joined with commas comes back as it is, in
    its order and with its repetitions. *)
Theorem cors_allowed_origins_parsed (σ σ1 : Proc) :
  _cfg σ = None -> load_config σ = (Ok tt, σ1) ->
  exists l c,
    _cfg σ1 = Some l /\ heap σ1 !! l = Some c
    /\ cors_allowed_origins c
       = origins_by_spec (getenv (environ σ) "CORS_ALLOWED_ORIGINS" "*")
    /\ (environ σ !! "CORS_ALLOWED_ORIGINS" = Some " a , b ,,c " ->
        cors_allowed_origins c = ["a"; "b"; "c"])
    /\ (forall tokens, forallb clean_token tokens = true ->
        environ σ !! "CORS_ALLOWED_ORIGINS" = Some (Str.join "," tokens) ->
        cors_allowed_origins c = tokens).
Proof.
  intros Hnone Hload.
  destruct (load_config_stores _ _ Hnone Hload) as (l & n & Hl & Hc & _).
  exists l, (loaded (environ σ) n). simpl.
  split; [exact Hl | split; [exact Hc | split; [apply parse_origins_by_spec | split]]].
  - unfold getenv. intros ->. reflexivity.
  - unfold getenv. intros tokens Hclean ->. apply parse_origins_join, Hclean.
Qed.

(** C10. [load_config] stores the value of [PG_DSN_APP] without the
    whitespace at its two ends; when the value is whitespace only, the
    stored DSN is empty and a first [engine()] on the new [Config] raises
    and leaves the process as it is, without any pool. *)
Theorem load_config_strips_dsn (σ σ1 : Proc) :
  _cfg σ = None -> load_config σ = (Ok tt, σ1) ->
  exists l c,
    _cfg σ1 = Some l /\ heap σ1 !! l = Some c /\ _engine c = None
    /\ pg_dsn_app c = Str.strip (getenv (environ σ) "PG_DSN_APP" "")
    /\ (exists before after,
          getenv (environ σ) "PG_DSN_APP" "" = before ++ pg_dsn_app c ++ after
          /\ Str.all Str.isspace before = true /\ Str.all Str.isspace after = true
          /\ from_option Str.isspace false (Str.head (pg_dsn_app c)) = false
          /\ from_option Str.isspace false (Str.last (pg_dsn_app c)) = false)
    /\ (Str.all Str.isspace (getenv (environ σ) "PG_DSN_APP" "") = true ->
        pg_dsn_app c = ""
        /\ (exists e, engine l σ1 = Some (Raise e, σ1))
        /\ pools σ1 = pools σ).
Proof.
  intros Hnone Hload.
  destruct (load_config_stores _ _ Hnone Hload) as (l & n & Hl & Hc & Hp).
  exists l, (loaded (environ σ) n). simpl.
  split; [exact Hl | split; [exact Hc | split; [reflexivity | split; [reflexivity | split]]]].
  - apply strip_decompose.
  - intros Hws. pose proof (strip_all_space _ Hws) as Hempty.
    split; [exact Hempty | split; [|exact Hp]].
    rewrite (engine_lookup _ _ _ Hc). simpl in *. rewrite Hempty. simpl. eauto.
Qed.

End Loaded.

(** ** Key files *)

Section KeyFacts.

Context {rt : Runtime}.

Lemma load_public_key_b64_cases (data : list byte) :
  load_public_key_b64 data =
    match a2b_base64 data with
    | None => Raise binascii_Error
    | Some raw =>
        if (length raw =? 32)%nat then Ok (mkPublicKey raw)
        else Raise (nacl_ValueError "The public key must be exactly 32 bytes long")
    end.
Proof.
  unfold load_public_key_b64, b64decode. destruct (a2b_base64 data); reflexivity.
Qed.

Lemma load_private_key_b64_cases (data : list byte) :
  load_private_key_b64 data =
    match a2b_base64 data with
    | None => Raise binascii_Error
    | Some raw =>
        if (length raw =? 32)%nat then Ok (mkPrivateKey raw)
        else Raise (nacl_TypeError "PrivateKey must be created from a 32 bytes long raw secret key")
    end.
Proof.
  unfold load_private_key_b64, b64decode. destruct (a2b_base64 data); reflexivity.
Qed.

(** C5, as amended. Each of the two loaders fails exactly when
    [b64decode] raises for the input or what it decodes to is not 32 bytes
    long, 31 and 33 bytes among them.  The error is the [binascii.Error]
    of the decoder in the first case and the error of the constructor in
    the second ([nacl]'s [ValueError] for the public key, its [TypeError]
    for the private key).  When the input decodes to 32 bytes the loader
    returns the key made of them. *)
Theorem load_key_b64_spec (data : list byte) :
  (raises (load_public_key_b64 data) = true <->
     a2b_base64 data = None
     \/ exists raw, a2b_base64 data = Some raw /\ length raw <> 32)
  /\ (raises (load_private_key_b64 data) = true <->
       a2b_base64 data = None
       \/ exists raw, a2b_base64 data = Some raw /\ length raw <> 32)
  /\ (forall e, load_public_key_b64 data = Raise e ->
        (a2b_base64 data = None /\ e = binascii_Error)
        \/ (exists raw msg, a2b_base64 data = Some raw /\ length raw <> 32
                          /\ e = nacl_ValueError msg))
  /\ (forall e, load_private_key_b64 data = Raise e ->
        (a2b_base64 data = None /\ e = binascii_Error)
        \/ (exists raw msg, a2b_base64 data = Some raw /\ length raw <> 32
                          /\ e = nacl_TypeError msg))
  /\ (forall raw, a2b_base64 data = Some raw -> length raw = 32 ->
        load_public_key_b64 data = Ok (mkPublicKey raw)
        /\ load_private_key_b64 data = Ok (mkPrivateKey raw))
  /\ (forall raw, a2b_base64 data = Some raw -> length raw = 31 \/ length raw = 33 ->
        raises (load_public_key_b64 data) = true
        /\ raises (load_private_key_b64 data) = true).
Proof.
  rewrite load_public_key_b64_cases, load_private_key_b64_cases.
  destruct (a2b_base64 data) as [raw|].
  - destruct (Nat.eqb_spec (length raw) 32) as [Hlen|Hlen]; simpl.
    + assert (Hiff : false = true <->
                (Some raw = None \/ exists r, Some raw = Some r /\ length r <> 32)).
      { split; [discriminate|].
        intros [Hn | (r & [= <-] & Hr)]; [discriminate | contradiction]. }
      split; [exact Hiff | split; [exact Hiff|]].
      split; [discriminate | split; [discriminate | split]].
      * intros r [= <-] _. auto.
      * intros r [= <-] [H31 | H33]; lia.
    + assert (Hiff : true = true <->
                (Some raw = None \/ exists r, Some raw = Some r /\ length r <> 32)).
      { split; eauto. }
      split; [exact Hiff | split; [exact Hiff|]].
      split; [intros e [= <-]; right; eauto | split; [intros e [= <-]; right; eauto | split]].
      * intros r [= <-] Hr. contradiction.
      * intros r _ _. auto.
  - simpl.
    assert (Hiff : true = true <->
              (@None (list byte) = None
               \/ exists r : list byte, None = Some r /\ length r <> 32)).
    { split; eauto. }
    split; [exact Hiff | split; [exact Hiff|]].
    split; [intros e [= <-]; auto | split; [intros e [= <-]; auto | split]];
      intros r; discriminate.
Qed.

End KeyFacts.

(** ** The properties at sample inputs *)

Lemma boolean_flags_witness :
  exists g, import_config (rt := Sample.runtime) Sample.env_flags = Ok g
    /\ TRUST_PROXY g = false /\ ROTATE_UTC g = true.
Proof.
  eexists. split; [reflexivity|].
  destruct (boolean_flags (rt := Sample.runtime) Sample.env_flags _ eq_refl)
    as (_ & _ & _ & _ & _ & Hrot & Hother).
  split.
  - apply (Hother "yes"); [simpl; auto | reflexivity].
  - apply (Hrot "1"); reflexivity.
Defined.

Lemma redact_keys_parsed_witness :
  exists g, import_config (rt := Sample.runtime) Sample.env_redact = Ok g
    /\ REDACT_KEYS g = {[ "token"; "password" ]}.
Proof.
  eexists. split; [reflexivity|].
  apply (redact_keys_parsed (rt := Sample.runtime) Sample.env_redact _ eq_refl).
  reflexivity.
Defined.

Lemma private_key_path_spec_witness :
  private_key_path (rt := Sample.runtime) 0 (Sample.booted Sample.env_key)
  = (Ok (Some "/home/app/keys/private.base64"), Sample.booted Sample.env_key).
Proof.
  apply (proj2 (private_key_path_spec (rt := Sample.runtime) Sample.env_key
                  (Sample.booted Sample.env_key) 0 eq_refl)
           "~/keys/private.base64" eq_refl).
  discriminate.
Defined.

Lemma cors_allowed_origins_parsed_witness :
  exists l c,
    _cfg (load_config (rt := Sample.runtime) (Sample.fresh Sample.env_cors)).2 = Some l
    /\ heap (load_config (rt := Sample.runtime) (Sample.fresh Sample.env_cors)).2 !! l = Some c
    /\ cors_allowed_origins c = ["a"; "b"; "c"].
Proof.
  destruct (cors_allowed_origins_parsed (rt := Sample.runtime)
              (Sample.fresh Sample.env_cors)
              (load_config (rt := Sample.runtime) (Sample.fresh Sample.env_cors)).2
              eq_refl eq_refl) as (l & c & Hl & Hc & _ & Hex & _).
  exists l, c. split; [exact Hl | split; [exact Hc | apply Hex; reflexivity]].
Defined.

Lemma load_config_strips_dsn_witness :
  exists l c,
    heap (load_config (rt := Sample.runtime) (Sample.fresh Sample.env_blank_dsn)).2 !! l = Some c
    /\ pg_dsn_app c = ""
    /\ exists e, engine (rt := Sample.runtime) l
                   (load_config (rt := Sample.runtime) (Sample.fresh Sample.env_blank_dsn)).2
                 = Some (Raise e, (load_config (rt := Sample.runtime) (Sample.fresh Sample.env_blank_dsn)).2).
Proof.
  destruct (load_config_strips_dsn (rt := Sample.runtime)
              (Sample.fresh Sample.env_blank_dsn)
              (load_config (rt := Sample.runtime) (Sample.fresh Sample.env_blank_dsn)).2
              eq_refl eq_refl) as (l & c & _ & Hc & _ & _ & _ & Hblank).
  destruct (Hblank eq_refl) as (Hempty & Hraise & _).
  exists l, c. auto.
Defined.

Lemma load_key_b64_spec_witness :
  load_public_key_b64 (rt := Sample.runtime) Sample.key_text = Ok (mkPublicKey (repeat x00 32))
  /\ load_private_key_b64 (rt := Sample.runtime) Sample.key_text = Ok (mkPrivateKey (repeat x00 32)).
Proof.
  destruct (load_key_b64_spec (rt := Sample.runtime) Sample.key_text)
    as (_ & _ & _ & _ & Hok & _).
  apply (Hok (repeat x00 32)); reflexivity.
Defined.

(** C5, as the specification words it, fails: an input that is not valid
    base64, here the text of a key after a byte that is not of the
    alphabet, loads a key. *)
Lemma load_key_b64_invalid_input_counterexample :
  ~ (Base64.valid Sample.key_text_noise = false ->
     raises (load_public_key_b64 (rt := Sample.runtime) Sample.key_text_noise) = true
     \/ raises (load_private_key_b64 (rt := Sample.runtime) Sample.key_text_noise) = true).
Proof.
  intros H. destruct (H eq_refl) as [Hpub | Hpriv]; vm_compute in *; discriminate.
Qed.

(** ** Further runs *)

(** Entries that differ in case or in the whitespace around them are one
    key. *)
Example redact_keys_fold :
  parse_redact_keys "Token,token , TOKEN,," = {[ "token" ]}.
Proof. reflexivity. Qed.

(** Repeated origins stay, in their order. *)
Example origins_repeat : parse_origins "b,a, b ,a" = ["b"; "a"; "b"; "a"].
Proof. reflexivity. Qed.

(** The whitespace of [strip] is more than the blank: tabs, line ends and
    the separators FS..US go as well. *)
Example strip_controls :
  Str.strip (String (ascii_of_nat 9) (String (ascii_of_nat 28) ("dsn" ++ String (ascii_of_nat 10) "")))
  = "dsn".
Proof. reflexivity. Qed.

(** With the sample decoder a key file that ends in a line feed loads: the
    decoder passes over the bytes that are not of the alphabet. *)
Example key_file_with_newline :
  load_public_key_b64 (rt := Sample.runtime) (Sample.key_text ++ [x0a])
  = Ok (mkPublicKey (repeat x00 32)).
Proof. reflexivity. Qed.

(** 31 and 33 bytes are refused by both loaders. *)
Example key_31_33 :
  let b31 := list_byte_of_string "AAAAAAAAAAAAAAAAAAAAAAAAAAAAAAAAAAAAAAAAAA==" in
  let b33 := list_byte_of_string "AAAAAAAAAAAAAAAAAAAAAAAAAAAAAAAAAAAAAAAAAAAA" in
  length <$> Base64.decode b31 = Some 31
  /\ length <$> Base64.decode b33 = Some 33
  /\ raises (load_public_key_b64 (rt := Sample.runtime) b31) = true
  /\ raises (load_private_key_b64 (rt := Sample.runtime) b31) = true
  /\ raises (load_public_key_b64 (rt := Sample.runtime) b33) = true
  /\ raises (load_private_key_b64 (rt := Sample.runtime) b33) = true.
Proof. repeat split; reflexivity. Qed.

(** A malformed interval: [load_config] raises, [_cfg] stays unset, and
    the next call reads the environment again. *)
Example load_malformed_interval :
  let σ := Sample.fresh {[ "DEFAULT_QUERY_INTERVAL" := "6h" ]} in
  (load_config (rt := Sample.runtime) σ).1 = Raise (ValueError "6h")
  /\ _cfg (load_config (rt := Sample.runtime) σ).2 = None
  /\ getenv_log (load_config (rt := Sample.runtime)
                   (load_config (rt := Sample.runtime) σ).2).2
     = (load_config_reads ++ load_config_reads)%list.
Proof. repeat split; reflexivity. Qed.

(** * Further properties of the code *)

(** ** Case folding and the separators *)

Section FoldFacts.
Import Str.

Lemma isspace_lower_char (c : ascii) : isspace (lower_char c) = isspace c.
Proof. destruct c as [[] [] [] [] [] [] [] []]; reflexivity. Qed.

Lemma lower_char_idem (c : ascii) : lower_char (lower_char c) = lower_char c.
Proof. destruct c as [[] [] [] [] [] [] [] []]; reflexivity. Qed.

Lemma lower_char_comma (c : ascii) : Ascii.eqb (lower_char c) "," = Ascii.eqb c ",".
Proof. destruct c as [[] [] [] [] [] [] [] []]; reflexivity. Qed.

Lemma lower_idem (s : string) : lower (lower s) = lower s.
Proof. induction s as [|c r IH]; simpl; [|rewrite lower_char_idem, IH]; reflexivity. Qed.

Lemma lstrip_lower (s : string) : lstrip (lower s) = lower (lstrip s).
Proof.
  induction s as [|c r IH]; simpl; auto.
  rewrite isspace_lower_char. destruct (isspace c); auto.
Qed.

Lemma rstrip_lower (s : string) : rstrip (lower s) = lower (rstrip s).
Proof.
  induction s as [|c r IH]; simpl; auto.
  rewrite IH, isspace_lower_char.
  destruct (rstrip r); simpl; auto. destruct (isspace c); auto.
Qed.

Lemma strip_lower (s : string) : strip (lower s) = lower (strip s).
Proof. unfold strip. rewrite lstrip_lower, rstrip_lower. reflexivity. Qed.

Lemma split_lower (s : string) : split "," (lower s) = map lower (split "," s).
Proof.
  induction s as [|c r IH]; simpl; auto.
  rewrite lower_char_comma, IH.
  destruct (Ascii.eqb c ","); simpl; auto.
  destruct (split "," r); reflexivity.
Qed.

Lemma mem_app (c : ascii) (s t : string) : mem c (s ++ t) = mem c s || mem c t.
Proof.
  induction s as [|d s IH]; auto.
  rewrite append_String. simpl. rewrite IH, orb_assoc. reflexivity.
Qed.

Lemma strip_no_sep (sep : ascii) (s : string) :
  mem sep s = false -> mem sep (strip s) = false.
Proof.
  intros H. destruct (strip_decompose s) as (l & r & Hs & _).
  rewrite Hs, !mem_app in H.
  apply orb_false_iff in H as [_ H]. apply orb_false_iff in H as [H _]. exact H.
Qed.

Lemma strip_idem (s : string) : strip (strip s) = strip s.
Proof.
  destruct (strip_decompose s) as (_ & _ & _ & _ & _ & Hh & Hl).
  unfold strip at 1. rewrite (lstrip_id _ Hh). apply rstrip_id, Hl.
Qed.

Lemma split_app (sep : ascii) (a b : string) :
  split sep (a ++ String sep b) = (split sep a ++ split sep b)%list.
Proof.
  induction a as [|c r IH].
  - rewrite append_empty. simpl. rewrite Ascii.eqb_refl. reflexivity.
  - rewrite append_String. simpl. rewrite IH.
    destruct (Ascii.eqb c sep); [reflexivity|].
    pose proof (split_nonempty sep r) as Hne.
    destruct (split sep r); [contradiction | reflexivity].
Qed.




End FoldFacts.

(** ** The two comprehensions, further *)

Section ParseMore.
Import Str.

Lemma strip_piece_clean (p : string) :
  mem "," p = false -> truthy (strip p) = true -> clean_token (strip p) = true.
Proof.
  intros Hsep Ht. destruct (strip_decompose p) as (_ & _ & _ & _ & _ & Hh & Hl).
  unfold clean_token. rewrite Ht, (strip_no_sep _ _ Hsep), Hh, Hl. reflexivity.
Qed.

Lemma parse_origins_tokens_clean (v : string) :
  forallb clean_token (parse_origins v) = true.
Proof.
  unfold parse_origins. pose proof (split_no_sep "," v) as Hall.
  induction Hall as [|p rest Hp Hrest IH]; simpl; auto.
  destruct (truthy (strip p)) eqn:Ht; simpl; auto.
  rewrite (strip_piece_clean _ Hp Ht). exact IH.
Qed.

Lemma mem_lower_comma (s : string) : mem "," (lower s) = mem "," s.
Proof.
  induction s as [|c r IH]; simpl; auto. rewrite lower_char_comma, IH. reflexivity.
Qed.

Lemma head_lower_space (s : string) :
  from_option isspace false (head (lower s)) = from_option isspace false (head s).
Proof. destruct s; simpl; auto. apply isspace_lower_char. Qed.

Lemma last_lower_space (s : string) :
  from_option isspace false (last (lower s)) = from_option isspace false (last s).
Proof.
  induction s as [|c r IH]; auto.
  destruct r as [|d t]; [simpl; apply isspace_lower_char|].
  change (last (lower (String c (String d t)))) with (last (lower (String d t))).
  change (last (String c (String d t))) with (last (String d t)). exact IH.
Qed.

Lemma clean_token_lower (t : string) : clean_token (lower t) = clean_token t.
Proof.
  unfold clean_token.
  rewrite lower_truthy, mem_lower_comma, head_lower_space, last_lower_space. reflexivity.
Qed.

(** The keys are the origins-style tokens, lowercased. *)
Lemma parse_redact_keys_origins (v : string) :
  parse_redact_keys v = list_to_set (map lower (parse_origins v)).
Proof. unfold parse_redact_keys, parse_origins. rewrite map_map. reflexivity. Qed.



(** The list of origins is made of clean tokens, so writing it out with
    commas and reading it again changes nothing. *)
Theorem parse_origins_normal (v : string) :
  forallb clean_token (parse_origins v) = true
  /\ parse_origins (join "," (parse_origins v)) = parse_origins v.
Proof.
  split; [apply parse_origins_tokens_clean|].
  apply parse_origins_join, parse_origins_tokens_clean.
Qed.


(** Two values put together with a comma give the two lists of origins,
    one after the other. *)
Theorem parse_origins_app (a b : string) :
  parse_origins (a ++ String "," b) = (parse_origins a ++ parse_origins b)%list.
Proof.
  unfold parse_origins. rewrite split_app, List.filter_app, map_app. reflexivity.
Qed.

(** Two values put together with a comma give the union of the two sets
    of keys. *)
Theorem parse_redact_keys_app (a b : string) :
  parse_redact_keys (a ++ String "," b) = parse_redact_keys a ∪ parse_redact_keys b.
Proof.
  unfold parse_redact_keys.
  rewrite split_app, List.filter_app, map_app. apply list_to_set_app_L.
Qed.

(** The set of keys does not depend on the case of the value, and its
    elements are clean tokens that [lower] leaves as they are. *)
Theorem parse_redact_keys_folded (v : string) :
  parse_redact_keys (lower v) = parse_redact_keys v
  /\ forall x, x ∈ parse_redact_keys v -> lower x = x /\ clean_token x = true.
Proof.
  split.
  - unfold parse_redact_keys. f_equal. rewrite split_lower.
    induction (split "," v) as [|p rest IH]; simpl; auto.
    rewrite strip_lower, lower_truthy.
    destruct (truthy (strip p)); simpl; rewrite ?strip_lower, ?lower_idem, IH; reflexivity.
  - intros x. rewrite parse_redact_keys_origins, elem_of_list_to_set, list_elem_of_In, in_map_iff.
    intros (t & <- & Hin). split; [apply lower_idem|].
    rewrite clean_token_lower.
    pose proof (parse_origins_tokens_clean v) as Hall.
    rewrite forallb_forall in Hall. apply Hall, Hin.
Qed.

End ParseMore.

(** ** What one call can do to the process *)

Section StepFacts.

Context {rt : Runtime}.

Lemma run_cons_state (c : Call) (rest : list Call) (σ : Proc) :
  (run (c :: rest) σ).2 = (run rest (step c σ).2).2.
Proof.
  simpl. destruct (step c σ) as [o σ1]. simpl.
  destruct (run rest σ1) as [os σ2]. reflexivity.
Qed.

(** A call leaves the process as it is, or changes the environment, or is
    a first [load_config] that fails or that builds the [Config], or is an
    [engine()] that opens a pool. *)
Lemma step_cases (c : Call) (σ : Proc) :
  (step c σ).2 = σ
  \/ (exists k v, c = call_putenv k v /\ (step c σ).2 = putenv k v σ)
  \/ (_cfg σ = None
      /\ int_of_str (getenv (environ σ) "DEFAULT_QUERY_INTERVAL" "21600") = None
      /\ (step c σ).2 = mkProc (environ σ) (getenv_log σ ++ load_config_reads) (globals σ)
                          None (heap σ) (pools σ))
  \/ (_cfg σ = None
      /\ exists n,
           int_of_str (getenv (environ σ) "DEFAULT_QUERY_INTERVAL" "21600") = Some n
           /\ (step c σ).2 = mkProc (environ σ) (getenv_log σ ++ load_config_reads) (globals σ)
                               (Some (length (heap σ))) (heap σ ++ [loaded (environ σ) n])
                               (pools σ))
  \/ (exists self obj,
        c = call_engine self /\ heap σ !! self = Some obj /\ _engine obj = None
        /\ pg_dsn_app obj <> "" /\ create_engine_error (pg_dsn_app obj) = None
        /\ (step c σ).2 = mkProc (environ σ) (getenv_log σ) (globals σ) (_cfg σ)
                            (<[self := set_engine obj (length (pools σ))]> (heap σ))
                            (pools σ ++ [pg_dsn_app obj])).
Proof.
  assert (Hload : forall (σ' : Proc), σ' = (load_config σ).2 ->
            σ' = σ
            \/ (_cfg σ = None
                /\ int_of_str (getenv (environ σ) "DEFAULT_QUERY_INTERVAL" "21600") = None
                /\ σ' = mkProc (environ σ) (getenv_log σ ++ load_config_reads) (globals σ)
                          None (heap σ) (pools σ))
            \/ (_cfg σ = None
                /\ exists n,
                     int_of_str (getenv (environ σ) "DEFAULT_QUERY_INTERVAL" "21600") = Some n
                     /\ σ' = mkProc (environ σ) (getenv_log σ ++ load_config_reads) (globals σ)
                               (Some (length (heap σ))) (heap σ ++ [loaded (environ σ) n])
                               (pools σ))).
  { intros σ' ->. destruct (_cfg σ) as [l|] eqn:Hl.
    - rewrite (load_config_set _ _ Hl). auto.
    - rewrite (load_config_unset _ Hl).
      destruct (int_of_str _) as [n|] eqn:Hn; simpl; eauto 8. }
  destruct c as [| |self|self|k v]; simpl.
  - destruct (Hload _ eq_refl) as [H|[H|H]];
      destruct (load_config σ) as [[u|e] σ']; simpl in *; auto 6.
  - unfold cfg. destruct (_cfg σ) as [l|] eqn:Hl; simpl; auto.
    destruct (Hload _ eq_refl) as [H|[H|H]];
      destruct (load_config σ) as [[u|e] σ']; simpl in *; auto 6.
  - destruct (heap σ !! self) as [obj|] eqn:Hobj.
    + rewrite (engine_lookup _ _ _ Hobj).
      destruct (_engine obj) eqn:He; simpl; auto.
      destruct (pg_dsn_app obj) as [|a d] eqn:Hd; simpl; auto.
      destruct (create_engine_error (String a d)) eqn:Hc; simpl; auto.
      do 4 right. exists self, obj. rewrite Hd. repeat split; auto; discriminate.
    + unfold engine. rewrite Hobj. simpl. auto.
  - pose proof (private_key_path_pure self σ) as Hp.
    destruct (private_key_path self σ) as [[u|e] σ']; simpl in *; auto.
  - right. left. eauto.
Qed.

Lemma load_config_cfg_state (σ : Proc) : (cfg σ).2 = (load_config σ).2.
Proof.
  unfold cfg. destruct (_cfg σ) as [l|] eqn:Hl.
  - rewrite (load_config_set _ _ Hl). reflexivity.
  - destruct (load_config σ) as [[u|e] σ']; reflexivity.
Qed.

End StepFacts.

(** ** What every run keeps *)

Section RunFacts.

Context {rt : Runtime}.

Lemma run_invariant (P : Proc -> Prop) :
  (forall c σ, P σ -> P (step c σ).2) ->
  forall calls σ, P σ -> P (run calls σ).2.
Proof.
  intros Hstep calls. induction calls as [|c rest IH]; intros σ H; [exact H|].
  rewrite run_cons_state. apply IH, Hstep, H.
Qed.

Lemma run_relation (R : Proc -> Proc -> Prop) :
  (forall σ, R σ σ) ->
  (forall σ1 σ2 σ3, R σ1 σ2 -> R σ2 σ3 -> R σ1 σ3) ->
  (forall c σ, R σ (step c σ).2) ->
  forall calls σ, R σ (run calls σ).2.
Proof.
  intros Hrefl Htrans Hstep calls. induction calls as [|c rest IH]; intros σ; [apply Hrefl|].
  rewrite run_cons_state. eapply Htrans; [apply Hstep | apply IH].
Qed.

Lemma step_globals (c : Call) (σ : Proc) : globals (step c σ).2 = globals σ.
Proof.
  destruct (step_cases c σ)
    as [E|[(k & v & _ & E)|[(_ & _ & E)|[(_ & n & _ & E)|(s & o & _ & _ & _ & _ & _ & E)]]]];
    rewrite E; reflexivity.
Qed.

Lemma run_globals (calls : list Call) (σ : Proc) : globals (run calls σ).2 = globals σ.
Proof.
  apply (run_relation (fun a b => globals b = globals a)); auto.
  - intros a b c Hab Hbc. congruence.
  - intros c a. apply step_globals.
Qed.

(** [_cfg] never dangles: when it refers to an object of the heap, it does
    so after any calls. *)
Theorem cfg_live_run (calls : list Call) (σ : Proc) :
  cfg_live σ -> cfg_live (run calls σ).2.
Proof.
  apply run_invariant. clear. intros c σ Hlive.
  destruct (step_cases c σ)
    as [E|[(k & v & _ & E)|[(_ & _ & E)|[(_ & n & _ & E)|(s & o & _ & _ & _ & _ & _ & E)]]]];
    rewrite E; unfold cfg_live in *; simpl; auto.
  - discriminate.
  - intros l [= <-]. rewrite length_app. simpl. lia.
  - intros l Hl. rewrite length_insert. auto.
Qed.

(** [cfg()] never returns [None]: it returns an object of the heap, which
    [_cfg] then refers to, or it raises the [ValueError] of the interval
    and [_cfg] stays unset. *)
Theorem cfg_returns_object (σ : Proc) :
  cfg_live σ ->
  (forall r σ', cfg σ = (Ok r, σ') ->
     exists l c, r = Some l /\ _cfg σ' = Some l /\ heap σ' !! l = Some c)
  /\ (forall e σ', cfg σ = (Raise e, σ') ->
        _cfg σ = None /\ _cfg σ' = None /\ heap σ' = heap σ
        /\ e = ValueError (getenv (environ σ) "DEFAULT_QUERY_INTERVAL" "21600")).
Proof.
  intros Hlive. unfold cfg. destruct (_cfg σ) as [l|] eqn:Hl.
  - split; [|discriminate]. intros r σ' [= <- <-].
    destruct (lookup_lt_is_Some_2 (heap σ) l (Hlive l Hl)) as [c Hc]. eauto.
  - rewrite (load_config_unset _ Hl). destruct (int_of_str _) as [n|]; simpl.
    + split; [|discriminate]. intros r σ' [= <- <-]. simpl.
      exists (length (heap σ)), (loaded (environ σ) n).
      repeat split. apply list_lookup_middle. reflexivity.
    + split; [discriminate|]. intros e σ' [= <- <-]. auto.
Qed.

(** A [load_config] that fails changes nothing but the log of reads: no
    [Config] is built and [_cfg] stays unset.  It is not final: once the
    interval is put right, the next call builds the [Config] from the
    environment as it then is. *)
Theorem load_config_failure_not_final (σ σ' : Proc) (e : exn) :
  load_config σ = (Raise e, σ') ->
  e = ValueError (getenv (environ σ) "DEFAULT_QUERY_INTERVAL" "21600")
  /\ int_of_str (getenv (environ σ) "DEFAULT_QUERY_INTERVAL" "21600") = None
  /\ σ' = mkProc (environ σ) (getenv_log σ ++ load_config_reads) (globals σ) None
            (heap σ) (pools σ)
  /\ forall v n, int_of_str v = Some n ->
       load_config (putenv "DEFAULT_QUERY_INTERVAL" (Some v) σ')
       = (Ok tt,
          mkProc (<["DEFAULT_QUERY_INTERVAL" := v]> (environ σ))
            ((getenv_log σ ++ load_config_reads) ++ load_config_reads) (globals σ)
            (Some (length (heap σ)))
            (heap σ ++ [loaded (<["DEFAULT_QUERY_INTERVAL" := v]> (environ σ)) n])
            (pools σ)).
Proof.
  intros Hfail. destruct (_cfg σ) as [l|] eqn:Hl.
  { rewrite (load_config_set _ _ Hl) in Hfail. discriminate. }
  rewrite (load_config_unset _ Hl) in Hfail.
  destruct (int_of_str _) as [n0|] eqn:Hn0; [discriminate|].
  injection Hfail as <- <-. repeat split; auto.
  intros v n Hv. rewrite load_config_unset; [|reflexivity]. simpl.
  unfold getenv at 1. rewrite lookup_insert_eq. simpl. rewrite Hv. reflexivity.
Qed.

(** Any run builds at most one [Config], and only while [_cfg] is unset:
    the heap keeps its length and [_cfg] its value, or [_cfg] was unset,
    one object was added and [_cfg] refers to it. *)
Theorem run_builds_one_config (calls : list Call) (σ : Proc) :
  (_cfg (run calls σ).2 = _cfg σ /\ length (heap (run calls σ).2) = length (heap σ))
  \/ (_cfg σ = None /\ _cfg (run calls σ).2 = Some (length (heap σ))
      /\ length (heap (run calls σ).2) = S (length (heap σ))).
Proof.
  apply (run_relation (fun a b =>
           (_cfg b = _cfg a /\ length (heap b) = length (heap a))
           \/ (_cfg a = None /\ _cfg b = Some (length (heap a))
               /\ length (heap b) = S (length (heap a))))); clear.
  - auto.
  - intros a b c [[H1 H2]|(H1 & H2 & H3)] [[K1 K2]|(K1 & K2 & K3)].
    + left. split; congruence.
    + right. repeat split; congruence.
    + right. repeat split; congruence.
    + congruence.
  - intros c σ.
    destruct (step_cases c σ)
      as [E|[(k & v & _ & E)|[(Hn & _ & E)|[(Hn & n & _ & E)|(s & o & _ & _ & _ & _ & _ & E)]]]];
      rewrite E; simpl; auto.
    + right. rewrite length_app. simpl. repeat split; auto. lia.
    + left. rewrite length_insert. auto.
Qed.

End RunFacts.

(** ** Objects and pools over a run *)

Section ObjectFacts.

Context {rt : Runtime}.

Lemma same_settings_refl (c : Config) : same_settings c c.
Proof. unfold same_settings. auto. Qed.

Lemma same_settings_trans (a b c : Config) :
  same_settings a b -> same_settings b c -> same_settings a c.
Proof.
  unfold same_settings. intros (A1 & A2 & A3 & A4) (B1 & B2 & B3 & B4).
  repeat split; try congruence. auto.
Qed.

(** The settings of a [Config] are never written again: after any calls,
    and any change of the environment, the object is still there with the
    same DSN, origins and interval, and with the handle it had. *)
Theorem settings_never_change (calls : list Call) (σ : Proc) (l : loc) (c : Config) :
  heap σ !! l = Some c ->
  exists c', heap (run calls σ).2 !! l = Some c' /\ same_settings c c'.
Proof.
  revert l c.
  apply (run_relation (fun a b => forall l c, heap a !! l = Some c ->
           exists c', heap b !! l = Some c' /\ same_settings c c')); clear.
  - intros σ l c Hc. exists c. split; [exact Hc | apply same_settings_refl].
  - intros σ1 σ2 σ3 H12 H23 l c Hc.
    destruct (H12 l c Hc) as (c2 & Hc2 & S2). destruct (H23 l c2 Hc2) as (c3 & Hc3 & S3).
    exists c3. split; [exact Hc3 | eapply same_settings_trans; eauto].
  - intros c σ l obj Hobj.
    destruct (step_cases c σ)
      as [E|[(k & v & _ & E)|[(_ & _ & E)|[(_ & n & _ & E)|(s & o & _ & Ho & He & _ & _ & E)]]]];
      rewrite E; simpl; try (exists obj; split; [exact Hobj | apply same_settings_refl]).
    + exists obj. split; [apply lookup_app_l_Some, Hobj | apply same_settings_refl].
    + destruct (decide (s = l)) as [->|Hne].
      * assert (o = obj) as -> by congruence.
        exists (set_engine obj (length (pools σ))). split.
        -- apply list_lookup_insert_eq. eapply lookup_lt_Some, Hobj.
        -- unfold same_settings. simpl. repeat split; auto. congruence.
      * exists obj. split; [|apply same_settings_refl].
        rewrite list_lookup_insert_ne; auto.
Qed.

(** The handles stay consistent: when every handle kept in a [Config] is
    a pool opened with that object's DSN and no handle is kept twice, this
    is still so after any calls. *)
Theorem engines_consistent_run (calls : list Call) (σ : Proc) :
  engines_consistent σ -> engines_consistent (run calls σ).2.
Proof.
  apply run_invariant. clear. intros c σ [Hpool Hinj].
  destruct (step_cases c σ)
    as [E|[(k & v & _ & E)|[(_ & _ & E)|[(_ & n & _ & E)|(s & o & _ & Ho & He & _ & _ & E)]]]];
    rewrite E; unfold engines_consistent; simpl; auto.
  - assert (Hold : forall (l : nat) (c : Config) (h : Engine),
              (heap σ ++ [loaded (environ σ) n])%list !! l = Some c ->
              _engine c = Some h -> heap σ !! l = Some c).
    { intros l c0 h Hc Hh. apply lookup_app_Some in Hc as [Hc|[_ Hc]]; [exact Hc|].
      apply list_lookup_singleton_Some in Hc as [_ <-]. discriminate. }
    split.
    + intros l c0 h Hc Hh. eapply Hpool; eauto.
    + intros l1 l2 c1 c2 h H1 H2 E1 E2. eapply Hinj; eauto.
  - assert (Hs : s < length (heap σ)) by (eapply lookup_lt_Some, Ho).
    assert (Hold : forall (l : nat) (c : Config) (h : Engine),
              <[s := set_engine o (length (pools σ))]> (heap σ) !! l = Some c ->
              _engine c = Some h ->
              (l = s /\ h = length (pools σ) /\ pg_dsn_app c = pg_dsn_app o)
              \/ (l <> s /\ heap σ !! l = Some c /\ h < length (pools σ))).
    { intros l c0 h Hc Hh. destruct (decide (l = s)) as [->|Hne].
      - rewrite list_lookup_insert_eq in Hc by exact Hs.
        injection Hc as <-. simpl in Hh. injection Hh as <-. auto.
      - rewrite list_lookup_insert_ne in Hc by auto.
        right. repeat split; auto. eapply lookup_lt_Some, Hpool; eauto. }
    split.
    + intros l c0 h Hc Hh.
      destruct (Hold l c0 h Hc Hh) as [(-> & -> & ->)|(_ & Hc' & _)].
      * apply list_lookup_middle. reflexivity.
      * apply lookup_app_l_Some. eapply Hpool; eauto.
    + intros l1 l2 c1 c2 h H1 H2 E1 E2.
      destruct (Hold l1 c1 h H1 E1) as [(L1 & A1 & _)|(N1 & K1 & B1)];
        destruct (Hold l2 c2 h H2 E2) as [(L2 & A2 & _)|(N2 & K2 & B2)];
        try congruence; try lia.
      eapply Hinj; eauto.
Qed.

(** Pools are only added, at the end, at most one for each [engine()]
    call, and never with an empty URL. *)
Theorem pools_only_grow (calls : list Call) (σ : Proc) :
  exists more,
    pools (run calls σ).2 = (pools σ ++ more)%list
    /\ length more <= engine_calls calls
    /\ Forall (fun url => url <> "") more.
Proof.
  revert σ. induction calls as [|c rest IH]; intros σ.
  - exists []. simpl. rewrite app_nil_r. repeat split; auto.
  - rewrite run_cons_state. destruct (IH (step c σ).2) as (more & Hm & Hlen & Hne).
    rewrite Hm. clear Hm IH.
    destruct (step_cases c σ)
      as [E|[(k & v & _ & E)|[(_ & _ & E)|[(_ & n & _ & E)|(s & o & -> & _ & _ & Hd & _ & E)]]]];
      rewrite E; simpl;
      try (exists more; repeat split; auto;
           unfold engine_calls in *; simpl; destruct c; simpl; lia).
    exists (pg_dsn_app o :: more). rewrite <- app_assoc. simpl. repeat split; auto.
    unfold engine_calls in *. simpl. lia.
Qed.

(** When [engine()] raises, the process is as before and the object still
    has no handle; the error is the [RuntimeError] of the empty DSN, or
    what [create_engine] raised for a DSN that is not empty. *)
Theorem engine_failure (σ σ' : Proc) (self : loc) (e : exn) :
  engine self σ = Some (Raise e, σ') ->
  σ' = σ
  /\ exists c, heap σ !! self = Some c /\ _engine c = None
     /\ ((pg_dsn_app c = "" /\ e = RuntimeError "PG_DSN_APP is required")
         \/ (pg_dsn_app c <> ""
             /\ exists x, create_engine_error (pg_dsn_app c) = Some x /\ e = EngineError x)).
Proof.
  destruct (heap σ !! self) as [c|] eqn:Hc.
  - rewrite (engine_lookup _ _ _ Hc).
    destruct (_engine c) eqn:He; [discriminate|].
    destruct (pg_dsn_app c) as [|a d] eqn:Hd; simpl.
    + intros [= <- <-]. split; auto. exists c. rewrite Hd. auto.
    + destruct (create_engine_error (String a d)) as [x|] eqn:Hx; [|discriminate].
      intros [= <- <-]. split; auto. exists c. rewrite Hd. repeat split; auto.
      right. split; [discriminate | eauto].
  - unfold engine. rewrite Hc. discriminate.
Qed.

(** Handles are per object, not per DSN: two [Config] objects without
    handle, asked one after the other, get two different handles and two
    pools are opened, also when their DSN is the same. *)
Theorem engines_per_object (σ σ1 σ2 : Proc) (l1 l2 : loc) (c1 c2 : Config) (h1 h2 : Engine) :
  l1 <> l2 ->
  heap σ !! l1 = Some c1 -> heap σ !! l2 = Some c2 ->
  _engine c1 = None -> _engine c2 = None ->
  engine l1 σ = Some (Ok h1, σ1) -> engine l2 σ1 = Some (Ok h2, σ2) ->
  h1 = length (pools σ) /\ h2 = S (length (pools σ))
  /\ pools σ2 = (pools σ ++ [pg_dsn_app c1; pg_dsn_app c2])%list.
Proof.
  intros Hne H1 H2 E1 E2.
  rewrite (engine_lookup _ _ _ H1), E1.
  destruct (negb _); [discriminate|].
  destruct (create_engine_error (pg_dsn_app c1)); [discriminate|].
  intros [= <- <-].
  assert (H2' : heap (mkProc (environ σ) (getenv_log σ) (globals σ) (_cfg σ)
                        (<[l1 := set_engine c1 (length (pools σ))]> (heap σ))
                        (pools σ ++ [pg_dsn_app c1])) !! l2 = Some c2).
  { simpl. rewrite list_lookup_insert_ne; auto. }
  rewrite (engine_lookup _ _ _ H2'), E2.
  destruct (negb _); [discriminate|].
  destruct (create_engine_error (pg_dsn_app c2)); [discriminate|].
  intros [= <- <-]. simpl. rewrite length_app, <- app_assoc. simpl.
  repeat split; auto. lia.
Qed.

(** [cfg().engine()] from a process without singleton: the pool that is
    opened is the next one, for the value of [PG_DSN_APP] as the first
    [cfg()] read it, without the whitespace at its ends. *)
Theorem cfg_engine_pool (σ σ1 σ2 : Proc) (l : loc) (h : Engine) :
  _cfg σ = None ->
  cfg σ = (Ok (Some l), σ1) -> engine l σ1 = Some (Ok h, σ2) ->
  h = length (pools σ)
  /\ pools σ2 = (pools σ ++ [Str.strip (getenv (environ σ) "PG_DSN_APP" "")])%list
  /\ Str.strip (getenv (environ σ) "PG_DSN_APP" "") <> ""
  /\ _cfg σ2 = Some l.
Proof.
  intros Hnone. unfold cfg. rewrite Hnone, (load_config_unset _ Hnone).
  destruct (int_of_str _) as [n|]; [|discriminate]. simpl.
  intros [= <- <-].
  assert (Hl : heap (mkProc (environ σ) (getenv_log σ ++ load_config_reads) (globals σ)
                       (Some (length (heap σ))) (heap σ ++ [loaded (environ σ) n])
                       (pools σ)) !! length (heap σ) = Some (loaded (environ σ) n)).
  { simpl. apply list_lookup_middle. reflexivity. }
  rewrite (engine_lookup _ _ _ Hl). simpl.
  destruct (Str.strip (getenv (environ σ) "PG_DSN_APP" "")) as [|a d] eqn:Hd; [discriminate|].
  simpl. destruct (create_engine_error (String a d)); [discriminate|].
  intros [= <- <-]. simpl. repeat split; auto; discriminate.
Qed.

End ObjectFacts.

(** ** The constants of the module *)

Section ImportFacts.

Context {rt : Runtime}.

(** The constants are read once: whatever is called and whatever happens
    to the environment after the import, [private_key_path()] goes by the
    value that [APP_PRIVATE_KEY_B64_PATH] had at import. *)
Theorem private_key_path_snapshot (env : gmap string string) (σ : Proc)
    (calls : list Call) (self : loc) :
  import_config env = Ok (globals σ) ->
  private_key_path self (run calls σ).2
  = (match env !! "APP_PRIVATE_KEY_B64_PATH" with
     | None | Some EmptyString => Ok None
     | Some p => Some <$> expanduser (environ (run calls σ).2) (Path_of_str p)
     end, (run calls σ).2).
Proof.
  intros Himp. destruct (import_config_ok _ _ Himp) as (_ & _ & _ & Hp).
  unfold private_key_path. rewrite run_globals, Hp.
  destruct (env !! "APP_PRIVATE_KEY_B64_PATH") as [[|a p]|]; reflexivity.
Qed.

(** The import fails exactly when one of the four integer variables, or
    its default, is not an integer literal; the error is the [ValueError]
    of the first of them in the order of the module. *)
Theorem import_config_first_error (env : gmap string string) :
  (raises (import_config env) = false <->
     is_Some (int_of_str (getenv env "MAX_LOG_BYTES" "4096"))
     /\ is_Some (int_of_str (getenv env "RFC_ENTERPRISE_ID" "32473"))
     /\ is_Some (int_of_str (getenv env "GZIP_AFTER_DAYS" "7"))
     /\ is_Some (int_of_str (getenv env "KEEP_DAYS" "200")))
  /\ forall e, import_config env = Raise e ->
       exists key dflt,
         In (key, dflt) [("MAX_LOG_BYTES", "4096"); ("RFC_ENTERPRISE_ID", "32473");
                         ("GZIP_AFTER_DAYS", "7"); ("KEEP_DAYS", "200")]
         /\ int_of_str (getenv env key dflt) = None
         /\ e = ValueError (getenv env key dflt)
         /\ (key <> "MAX_LOG_BYTES" ->
             is_Some (int_of_str (getenv env "MAX_LOG_BYTES" "4096")))
         /\ (key = "GZIP_AFTER_DAYS" \/ key = "KEEP_DAYS" ->
             is_Some (int_of_str (getenv env "RFC_ENTERPRISE_ID" "32473")))
         /\ (key = "KEEP_DAYS" ->
             is_Some (int_of_str (getenv env "GZIP_AFTER_DAYS" "7"))).
Proof.
  unfold import_config, int, mbind, result_bind.
  destruct (int_of_str (getenv env "MAX_LOG_BYTES" "4096")) as [n1|] eqn:H1.
  2:{ split.
      - split; [discriminate|]. intros ([x Hx] & _). discriminate.
      - intros e [= <-]. exists "MAX_LOG_BYTES", "4096". simpl.
        repeat split; auto; try congruence. intros [?|?]; discriminate. }
  destruct (int_of_str (getenv env "RFC_ENTERPRISE_ID" "32473")) as [n2|] eqn:H2.
  2:{ split.
      - split; [discriminate|]. intros (_ & [x Hx] & _). discriminate.
      - intros e [= <-]. exists "RFC_ENTERPRISE_ID", "32473". simpl.
        repeat split; eauto; try congruence. intros [?|?]; discriminate. }
  destruct (int_of_str (getenv env "GZIP_AFTER_DAYS" "7")) as [n3|] eqn:H3.
  2:{ split.
      - split; [discriminate|]. intros (_ & _ & [x Hx] & _). discriminate.
      - intros e [= <-]. exists "GZIP_AFTER_DAYS", "7". simpl.
        repeat split; eauto 6; try congruence. }
  destruct (int_of_str (getenv env "KEEP_DAYS" "200")) as [n4|] eqn:H4.
  2:{ split.
      - split; [discriminate|]. intros (_ & _ & _ & [x Hx]). discriminate.
      - intros e [= <-]. exists "KEEP_DAYS", "200". simpl.
        repeat split; eauto 6; try congruence. }
  split; [|discriminate]. simpl. split; eauto 6.
Qed.

End ImportFacts.

(** ** The further properties at sample inputs *)

Lemma parse_redact_keys_folded_witness :
  Str.lower "token" = "token" /\ clean_token "token" = true.
Proof.
  apply (proj2 (parse_redact_keys_folded "Token, PASSWORD") "token").
  vm_compute. reflexivity.
Defined.

Lemma cfg_live_run_witness :
  cfg_live (run (rt := Sample.runtime) Sample.calls (Sample.fresh Sample.env_app)).2.
Proof.
  apply (cfg_live_run (rt := Sample.runtime)).
  intros l Hl. discriminate Hl.
Defined.

Lemma cfg_returns_object_witness :
  exists l c,
    (cfg (rt := Sample.runtime) (Sample.fresh Sample.env_app)).1 = Ok (Some l)
    /\ heap (cfg (rt := Sample.runtime) (Sample.fresh Sample.env_app)).2 !! l = Some c.
Proof.
  assert (Hlive : cfg_live (Sample.fresh Sample.env_app)) by (intros l Hl; discriminate Hl).
  destruct (proj1 (cfg_returns_object (rt := Sample.runtime) _ Hlive)
              (Some 0) (cfg (rt := Sample.runtime) (Sample.fresh Sample.env_app)).2 eq_refl)
    as (l & c & Hr & _ & Hc).
  exists l, c. split; [rewrite <- Hr; reflexivity | exact Hc].
Defined.

Lemma load_config_failure_not_final_witness :
  (load_config (rt := Sample.runtime)
     (putenv "DEFAULT_QUERY_INTERVAL" (Some "21600")
        (load_config (rt := Sample.runtime) (Sample.fresh Sample.env_bad_interval)).2)).1
  = Ok tt.
Proof.
  destruct (load_config_failure_not_final (rt := Sample.runtime)
              (Sample.fresh Sample.env_bad_interval)
              (load_config (rt := Sample.runtime) (Sample.fresh Sample.env_bad_interval)).2
              (ValueError "6h") eq_refl) as (_ & _ & _ & Hnext).
  rewrite (Hnext "21600" 21600%Z eq_refl). reflexivity.
Defined.

Lemma settings_never_change_witness :
  exists c',
    heap (run (rt := Sample.runtime) Sample.calls Sample.two_configs).2 !! 1 = Some c'
    /\ same_settings (mkConfig "postgresql://app@db/sched" [] 60 None) c'.
Proof.
  apply (settings_never_change (rt := Sample.runtime) Sample.calls Sample.two_configs 1).
  reflexivity.
Defined.

Lemma engines_consistent_run_witness :
  engines_consistent (run (rt := Sample.runtime) Sample.calls Sample.two_configs).2.
Proof.
  apply (engines_consistent_run (rt := Sample.runtime)).
  split.
  - intros [|[|l]] c h Hc Hh; simpl in Hc; try discriminate;
      injection Hc as <-; discriminate Hh.
  - intros [|[|l1]] l2 c1 c2 h H1 _ E1 _; simpl in H1; try discriminate;
      injection H1 as <-; discriminate E1.
Defined.

Lemma engine_failure_witness :
  exists c, heap Sample.unusable !! 0 = Some c /\ _engine c = None.
Proof.
  destruct (engine_failure (rt := Sample.runtime) Sample.unusable Sample.unusable 0
              (RuntimeError "PG_DSN_APP is required") eq_refl) as (_ & c & Hc & He & _).
  exists c. auto.
Defined.

Lemma engines_per_object_witness :
  (0 : Engine) = length (pools Sample.two_configs)
  /\ (1 : Engine) = S (length (pools Sample.two_configs)).
Proof.
  destruct (engines_per_object (rt := Sample.runtime) Sample.two_configs
              (step (rt := Sample.runtime) (call_engine 0) Sample.two_configs).2
              (run (rt := Sample.runtime) [call_engine 0; call_engine 1] Sample.two_configs).2
              0 1 (mkConfig "postgresql://app@db/sched" ["*"] 21600 None)
              (mkConfig "postgresql://app@db/sched" [] 60 None) 0 1
              ltac:(discriminate) eq_refl eq_refl eq_refl eq_refl eq_refl eq_refl)
    as (H0 & H1 & _).
  split; assumption.
Defined.

Lemma cfg_engine_pool_witness :
  pools (run (rt := Sample.runtime) [call_cfg; call_engine 0] (Sample.fresh Sample.env_app)).2
  = ["postgresql://app@db/sched"].
Proof.
  destruct (cfg_engine_pool (rt := Sample.runtime) (Sample.fresh Sample.env_app)
              (cfg (rt := Sample.runtime) (Sample.fresh Sample.env_app)).2
              (run (rt := Sample.runtime) [call_cfg; call_engine 0]
                 (Sample.fresh Sample.env_app)).2
              0 0 eq_refl eq_refl eq_refl) as (_ & Hpools & _).
  exact Hpools.
Defined.

Lemma private_key_path_snapshot_witness :
  (private_key_path (rt := Sample.runtime) 0
     (run (rt := Sample.runtime) Sample.calls (Sample.booted Sample.env_key)).2).1
  = Ok (Some "/home/app/keys/private.base64").
Proof.
  rewrite (private_key_path_snapshot (rt := Sample.runtime) Sample.env_key
             (Sample.booted Sample.env_key) Sample.calls 0 eq_refl).
  reflexivity.
Defined.

Lemma import_config_first_error_witness :
  exists key dflt,
    int_of_str (Runtime := Sample.runtime) (getenv Sample.env_bad_import key dflt) = None
    /\ key <> "KEEP_DAYS".
Proof.
  destruct (proj2 (import_config_first_error (rt := Sample.runtime) Sample.env_bad_import)
              (ValueError "none") eq_refl)
    as (key & dflt & _ & Hnone & _ & _ & Hrfc & _).
  exists key, dflt. split; [exact Hnone|].
  intros ->. destruct (Hrfc (or_intror eq_refl)) as [x Hx]. discriminate Hx.
Defined.

(** The text of a key is valid base64; after a stray byte it is not, and
    both loaders take it all the same, with the same key. *)
Example key_text_noise_loads :
  Base64.valid Sample.key_text = true
  /\ Base64.valid Sample.key_text_noise = false
  /\ load_public_key_b64 (rt := Sample.runtime) Sample.key_text_noise
     = Ok (mkPublicKey (repeat x00 32))
  /\ load_private_key_b64 (rt := Sample.runtime) Sample.key_text_noise
     = Ok (mkPrivateKey (repeat x00 32)).
Proof. repeat split; reflexivity. Qed.
